(** * Proof-of-work check and difficulty retargeting (namespace cryptonote)

    A shallow embedding of [mul], [cadd], [cadc], [check_hash],
    [next_difficulty], [next_difficulty_with_statistics] and [LWMA1_],
    with the properties of the difficulty specification proved over it.

    Conventions of the embedding:
    - a [uint64_t] (and a [size_t], taken to be 64 bits wide) is a [Z] in
      [0, 2^64); every C operation that can wrap is written with its
      reduction modulo 2^64;
    - a [std::vector<uint64_t>] is a [list Z]; [v.size()] is [size v];
    - a failed [assert], a division by zero and an index outside a vector
      end the computation with a [fault];
    - [std::sort] is [merge_sort Z.le]. *)

From Stdlib Require Import ZArith Lia List Bool.
From Stdlib.Strings Require Import Byte.
From stdpp Require Import base list sorting.

Local Open Scope Z_scope.

(** ** 64-bit unsigned arithmetic *)

Definition u64 (z : Z) : Z := z mod 2 ^ 64.

Definition is_u64 (z : Z) : Prop := 0 <= z < 2 ^ 64.

Definition add64 (a b : Z) : Z := u64 (a + b).
Definition sub64 (a b : Z) : Z := u64 (a - b).
Definition mul64 (a b : Z) : Z := u64 (a * b).
Definition shl64 (a n : Z) : Z := u64 (Z.shiftl a n).
Definition shr64 (a n : Z) : Z := Z.shiftr a n.

Infix "+%" := add64 (at level 50, left associativity) : Z_scope.
Infix "-%" := sub64 (at level 50, left associativity) : Z_scope.
Infix "*%" := mul64 (at level 40, left associativity) : Z_scope.

(** ** Faults and the error monad *)

Inductive fault : Type :=
| AssertionFailed
| DivisionByZero
| OutOfRange.

Inductive result (A : Type) : Type :=
| Ret (a : A)
| Abort (f : fault).

Arguments Ret {A} a.
Arguments Abort {A} f.

#[global] Instance result_ret : MRet result := fun A a => Ret a.

#[global] Instance result_bind : MBind result := fun A B k m =>
  match m with
  | Ret a => k a
  | Abort f => Abort f
  end.

#[global] Instance result_fmap : FMap result := fun A B f m =>
  match m with
  | Ret a => Ret (f a)
  | Abort e => Abort e
  end.

(** [assert(b)] *)
Definition assert (b : bool) : result unit :=
  if b then Ret tt else Abort AssertionFailed.

(** [a / b] on [uint64_t] *)
Definition div64 (a b : Z) : result Z :=
  if b =? 0 then Abort DivisionByZero else Ret (a / b).

(** [v.size()] *)
Definition size (v : list Z) : Z := Z.of_nat (length v).

(** [v[i]] *)
Definition at_index (v : list Z) (i : Z) : result Z :=
  if i <? 0 then Abort OutOfRange
  else match v !! Z.to_nat i with
       | Some x => Ret x
       | None => Abort OutOfRange
       end.

(** ** WideMultiply: the portable [mul] (lines 59-94) *)

Definition mul (a b : Z) : Z * Z :=
  let aLow := Z.land a 0xFFFFFFFF in
  let aHigh := shr64 a 32 in
  let bLow := Z.land b 0xFFFFFFFF in
  let bHigh := shr64 b 32 in

  let res := aLow *% bLow in
  let lowRes1 := Z.land res 0xFFFFFFFF in
  let carry := shr64 res 32 in

  let res := aHigh *% bLow +% carry in
  let highResHigh1 := shr64 res 32 in
  let highResLow1 := Z.land res 0xFFFFFFFF in

  let res := aLow *% bHigh in
  let lowRes2 := Z.land res 0xFFFFFFFF in
  let carry := shr64 res 32 in

  let res := aHigh *% bHigh +% carry in
  let highResHigh2 := shr64 res 32 in
  let highResLow2 := Z.land res 0xFFFFFFFF in

  let r := highResLow1 +% lowRes2 in
  let carry := shr64 r 32 in
  let low := Z.lor (shl64 r 32) lowRes1 in
  let r := highResHigh1 +% highResLow2 +% carry in
  let d3 := Z.land r 0xFFFFFFFF in
  let carry := shr64 r 32 in
  let r := highResHigh2 +% carry in
  let high := Z.lor d3 (shl64 r 32) in
  (low, high).

(** ** TargetChecker: [cadd], [cadc], [check_hash] (lines 98-121) *)

Definition cadd (a b : Z) : bool := a +% b <? a.

Definition cadc (a b : Z) (c : bool) : bool :=
  (a +% b <? a) || (c && (a +% b =? u64 (-1))).

(** [crypto::hash] is a struct of 32 chars. *)
Definition hash : Type := list byte.

(** The little-endian value of a byte string. *)
Fixpoint le_value (bs : list byte) : Z :=
  match bs with
  | [] => 0
  | b :: bs' => Z.of_N (Byte.to_N b) + 256 * le_value bs'
  end.

(** Modelled from the spec: [swap64le] of common/int-util.h is missing; the
    check reads limb [i] of the hash as a 64-bit word and passes it through
    [swap64le], which normalizes it from little-endian, so that on every host
    the value is the little-endian value of bytes [8i .. 8i+7]. *)
Definition hash_word (h : hash) (i : nat) : Z :=
  le_value (take 8 (drop (8 * i) h)).

Definition check_hash (h : hash) (difficulty : Z) : bool :=
  let '(top, high) := mul (hash_word h 3) difficulty in
  if negb (high =? 0) then false
  else
    let '(low, cur) := mul (hash_word h 0) difficulty in
    let '(low, high) := mul (hash_word h 1) difficulty in
    let carry := cadd cur low in
    let cur := high in
    let '(low, high) := mul (hash_word h 2) difficulty in
    let carry := cadc cur low carry in
    let carry := cadc high top carry in
    negb carry.

(** ** ClassicWindow: [next_difficulty] (lines 123-175) *)

(** The constants of cryptonote_config.h, which is missing: they are taken as
    parameters. *)
Record config : Type := {
  DIFFICULTY_WINDOW : Z;
  DIFFICULTY_CUT : Z;
  DIFFICULTY_ADJUST_HEIGHT : Z;
  DIFFICULTY_WINDOW_ADJUST : Z;
  DIFFICULTY_CUT_ADJUST : Z
}.

(** [static_cast<size_t>(c)] *)
Definition to_size_t (c : Z) : Z := u64 c.

(** [v.resize(n)] on a vector of integers: cut, or pad with zeros. *)
Definition vresize (n : Z) (v : list Z) : list Z := resize (Z.to_nat n) 0 v.

(** [sort(v.begin(), v.end())] *)
Definition vsort (v : list Z) : list Z := merge_sort Z.le v.

Section ClassicWindow.
Variable cfg : config.

(** Lines 125-134: the window size and the cut selected by the height. *)
Definition select_profile (height : Z) : Z * Z :=
  if height >=? to_size_t (DIFFICULTY_ADJUST_HEIGHT cfg)
  then (to_size_t (DIFFICULTY_WINDOW_ADJUST cfg),
        to_size_t (DIFFICULTY_CUT_ADJUST cfg))
  else (to_size_t (DIFFICULTY_WINDOW cfg),
        to_size_t (DIFFICULTY_CUT cfg)).

(** Lines 125-166: the window profile, the truncation, the sort and the cut
    window. The result is [None] at the early [return 1] of a series of at
    most one sample, and [Some (time_span, total_work)] otherwise. *)
Definition next_difficulty_window
    (timestamps cumulative_difficulties : list Z) (height : Z)
  : result (option (Z * Z)) :=
  let '(difficulty_window, difficulty_cut) := select_profile height in
  let '(timestamps, cumulative_difficulties) :=
    if size timestamps >? difficulty_window
    then (vresize difficulty_window timestamps,
          vresize difficulty_window cumulative_difficulties)
    else (timestamps, cumulative_difficulties) in
  let length := size timestamps in
  assert (length =? size cumulative_difficulties);;
  if length <=? 1 then mret None
  else
    assert (difficulty_window >=? 2);;
    assert (length <=? difficulty_window);;
    let timestamps := vsort timestamps in
    assert (2 *% difficulty_cut <=? difficulty_window -% 2);;
    let '(cut_begin, cut_end) :=
      if length <=? difficulty_window -% 2 *% difficulty_cut
      then (0, length)
      else
        let cut_begin :=
          (length -% (difficulty_window -% 2 *% difficulty_cut) +% 1) / 2 in
        (cut_begin,
         cut_begin +% (difficulty_window -% 2 *% difficulty_cut)) in
    assert ((cut_begin +% 2 <=? cut_end) && (cut_end <=? length));;
    t_last ← at_index timestamps (cut_end -% 1);
    t_first ← at_index timestamps cut_begin;
    let time_span := t_last -% t_first in
    let time_span := if time_span =? 0 then 1 else time_span in
    c_last ← at_index cumulative_difficulties (cut_end -% 1);
    c_first ← at_index cumulative_difficulties cut_begin;
    let total_work := c_last -% c_first in
    assert (total_work >? 0);;
    mret (Some (time_span, total_work)).

(** Lines 167-174: the scaled ceiling division, 0 on overflow. *)
Definition next_difficulty_scale
    (total_work target_seconds time_span : Z) : Z :=
  let '(low, high) := mul total_work target_seconds in
  if negb (high =? 0) || (low +% time_span -% 1 <? low) then 0
  else (low +% time_span -% 1) / time_span.

Definition next_difficulty
    (timestamps cumulative_difficulties : list Z)
    (target_seconds height : Z) : result Z :=
  w ← next_difficulty_window timestamps cumulative_difficulties height;
  match w with
  | None => mret 1
  | Some (time_span, total_work) =>
      mret (next_difficulty_scale total_work target_seconds time_span)
  end.

(** ** The statistics variant (lines 177-222) *)

(** [statistics_tools::insert_next_difficulty] is not part of the sources:
    the recorder is a parameter, any function from its own state and the
    four forwarded values to its next state. Its status is discarded at the
    call site (line 219). *)
Variable recorder : Type.
Variable insert_next_difficulty : recorder -> Z -> Z -> Z -> Z -> recorder.

Definition next_difficulty_with_statistics
    (st : recorder) (blockheight : Z)
    (timestamps cumulative_difficulties : list Z) (target_seconds : Z)
  : result (Z * recorder) :=
  let '(timestamps, cumulative_difficulties) :=
    if size timestamps >? to_size_t (DIFFICULTY_WINDOW cfg)
    then (vresize (to_size_t (DIFFICULTY_WINDOW cfg)) timestamps,
          vresize (to_size_t (DIFFICULTY_WINDOW cfg)) cumulative_difficulties)
    else (timestamps, cumulative_difficulties) in
  let length := size timestamps in
  assert (length =? size cumulative_difficulties);;
  if length <=? 1 then mret (1, st)
  else
    assert (length <=? to_size_t (DIFFICULTY_WINDOW cfg));;
    let timestamps := vsort timestamps in
    let '(cut_begin, cut_end) :=
      if length <=?
         to_size_t (DIFFICULTY_WINDOW cfg - 2 * DIFFICULTY_CUT cfg)
      then (0, length)
      else
        let cut_begin :=
          (length -%
           to_size_t (DIFFICULTY_WINDOW cfg - 2 * DIFFICULTY_CUT cfg)
           +% 1) / 2 in
        (cut_begin,
         cut_begin +%
         to_size_t (DIFFICULTY_WINDOW cfg - 2 * DIFFICULTY_CUT cfg)) in
    assert ((cut_begin +% 2 <=? cut_end) && (cut_end <=? length));;
    t_last ← at_index timestamps (cut_end -% 1);
    t_first ← at_index timestamps cut_begin;
    let time_span := t_last -% t_first in
    let time_span := if time_span =? 0 then 1 else time_span in
    c_last ← at_index cumulative_difficulties (cut_end -% 1);
    c_first ← at_index cumulative_difficulties cut_begin;
    let total_work := c_last -% c_first in
    assert (total_work >? 0);;
    let '(low, high) := mul total_work target_seconds in
    if negb (high =? 0) || (low +% time_span -% 1 <? low) then mret (0, st)
    else
      let final_difficulty := (low +% time_span -% 1) / time_span in
      let st := insert_next_difficulty st blockheight time_span total_work
                  final_difficulty in
      mret (final_difficulty, st).

End ClassicWindow.

(** The two [static_assert]s of the statistics variant (lines 191 and 195),
    for constants that are sizes (non-negative, within [size_t]). *)
Definition static_asserts (cfg : config) : Prop :=
  0 <= DIFFICULTY_CUT cfg /\
  DIFFICULTY_WINDOW cfg < 2 ^ 64 /\
  DIFFICULTY_WINDOW cfg >= 2 /\
  2 * DIFFICULTY_CUT cfg <= DIFFICULTY_WINDOW cfg - 2.

(** A configuration for the closed examples: a window of 720 samples with a
    cut of 60 before height 1000, and a window of 60 with a cut of 5 from it. *)
Definition sample_config : config := {|
  DIFFICULTY_WINDOW := 720;
  DIFFICULTY_CUT := 60;
  DIFFICULTY_ADJUST_HEIGHT := 1000;
  DIFFICULTY_WINDOW_ADJUST := 60;
  DIFFICULTY_CUT_ADJUST := 5
|}.

(** ** The recorder of common/db_sqlite3.cpp (lines 125-175) *)

Record BlockchainSQLITEDB : Type := {
  m_statistics_open : bool;
  t_next_block_difficulty : list (Z * Z * Z * Z)
}.

Definition SQLITE_OK : Z := 0.
Definition SQLITE_ERROR : Z := 1.

Definition open_statistics (db : BlockchainSQLITEDB) : BlockchainSQLITEDB :=
  {| m_statistics_open := true;
     t_next_block_difficulty := t_next_block_difficulty db |}.

Definition close_statistics (db : BlockchainSQLITEDB) : BlockchainSQLITEDB :=
  {| m_statistics_open := false;
     t_next_block_difficulty := t_next_block_difficulty db |}.

(** [BlockchainSQLITEDB::insert_next_difficulty]. What sqlite answers is an
    input: [begin_ok] for BEGIN TRANSACTION, [prepare_ok] for the prepare,
    [step_ok] for whether the stepped INSERT stored its row. *)
Definition db_insert_next_difficulty (begin_ok prepare_ok step_ok : bool)
    (db : BlockchainSQLITEDB) (blockheight timespan totalwork difficulty : Z)
  : Z * BlockchainSQLITEDB :=
  if negb (m_statistics_open db) then (-1, db)
  else if negb begin_ok then (SQLITE_ERROR, db)
  else if prepare_ok then
    (SQLITE_OK,
     if step_ok
     then {| m_statistics_open := m_statistics_open db;
             t_next_block_difficulty :=
               t_next_block_difficulty db ++
               [(blockheight, timespan, totalwork, difficulty)] |}
     else db)
  else (SQLITE_ERROR, db).

(** A recorder for [next_difficulty_with_statistics] that forwards to the
    database and drops its status. *)
Definition sqlite_recorder (begin_ok prepare_ok step_ok : bool)
    (db : BlockchainSQLITEDB) (blockheight timespan totalwork difficulty : Z)
  : BlockchainSQLITEDB :=
  snd (db_insert_next_difficulty begin_ok prepare_ok step_ok db
         blockheight timespan totalwork difficulty).

(** ** LWMA1Window: [LWMA1_] (lines 238-279) *)

(** Lines 258-260: the solve time of one iteration, clamped to [6*T]. *)
Definition this_timestamp_of (timestamp_i previous_timestamp : Z) : Z :=
  if timestamp_i >? previous_timestamp then timestamp_i
  else previous_timestamp +% 1.

Definition clamped_solvetime (T timestamp_i previous_timestamp : Z) : Z :=
  Z.min (6 *% T)
        (this_timestamp_of timestamp_i previous_timestamp -% previous_timestamp).

(** Lines 256-262: [n] iterations of the loop body, starting at index [i]. *)
Fixpoint lwma_loop (n : nat) (timestamps : list Z) (T i L previous_timestamp : Z)
  : result (Z * Z) :=
  match n with
  | O => mret (L, previous_timestamp)
  | S n' =>
      timestamp_i ← at_index timestamps i;
      let this_timestamp := this_timestamp_of timestamp_i previous_timestamp in
      let L := L +% i *% clamped_solvetime T timestamp_i previous_timestamp in
      lwma_loop n' timestamps T (i +% 1) L this_timestamp
  end.

(** Lines 273-277: the rounding loop; [fuel] bounds its iterations. *)
Fixpoint round_loop (fuel : nat) (i next_D : Z) : Z :=
  match fuel with
  | O => next_D
  | S fuel' =>
      if i >? 1 then
        if next_D >? i *% 100 then ((next_D +% i / 2) / i) *% i
        else round_loop fuel' (i / 10) next_D
      else next_D
  end.

(** From [i = 1000000000] the loop ends within ten tests of [i > 1]. *)
Definition round_digits (next_D : Z) : Z := round_loop 10 1000000000 next_D.

(** Lines 253-263: the accumulation loop followed by the floor of [L]. *)
Definition lwma_L (timestamps : list Z) (T N : Z) : result Z :=
  t0 ← at_index timestamps 0;
  let previous_timestamp := t0 -% T in
  '(L, _) ← lwma_loop (Z.to_nat N) timestamps T 1 0 previous_timestamp;
  let L := if L <? N *% N *% T / 20 then N *% N *% T / 20 else L in
  mret L.

(** Line 250: the test of the bootstrap window. *)
Definition in_bootstrap (height FORK_HEIGHT N : Z) : bool :=
  (height >=? FORK_HEIGHT) && (height <? FORK_HEIGHT +% N).

Definition LWMA1_ (timestamps cumulative_difficulties : list Z)
    (T N height FORK_HEIGHT difficulty_guess : Z) : result Z :=
  assert ((size timestamps =? size cumulative_difficulties)
          && (size timestamps <=? N +% 1));;
  if in_bootstrap height FORK_HEIGHT N
  then mret difficulty_guess
  else
    assert (size timestamps =? N +% 1);;
    L ← lwma_L timestamps T N;
    c_last ← at_index cumulative_difficulties N;
    c_first ← at_index cumulative_difficulties 0;
    avg_D ← div64 (c_last -% c_first) N;
    next_D ←
      (if avg_D >? 2000000 *% N *% N *% T
       then q ← div64 avg_D (200 *% L);
            mret (q *% (N *% (N +% 1) *% T *% 99))
       else div64 (avg_D *% N *% (N +% 1) *% T *% 99) (200 *% L));
    mret (round_digits next_D).

(** ** Definitions used in the statements *)

(** The value of a carry flag. *)
Definition carry_bit (c : bool) : Z := if c then 1 else 0.

(** The scale [10^k] and the rounding that line 275 applies at a scale [s]. *)
Definition p10 (k : nat) : Z := 10 ^ Z.of_nat k.

Definition round_at (s x : Z) : Z := ((x +% s / 2) / s) *% s.

(** Following the words of the specification for the rounding step: go
    through the scales from 10^9 down to 10 and round at the first scale [s]
    with [x > 100*s]; leave [x] as it is when no scale qualifies. *)
Fixpoint round_at_first (scales : list Z) (x : Z) : Z :=
  match scales with
  | [] => x
  | s :: scales' =>
      if x >? 100 * s then round_at s x else round_at_first scales' x
  end.

Definition rounding_scales : list Z :=
  [1000000000; 100000000; 10000000; 1000000; 100000; 10000; 1000; 100; 10].

Definition rounding_step_spec (x : Z) : Z := round_at_first rounding_scales x.

(** The scales from [10^k] down to 10. *)
Fixpoint scales_from (k : nat) : list Z :=
  match k with
  | O => []
  | S k' => p10 (S k') :: scales_from k'
  end.

(** ** Arithmetic helpers *)

Lemma u64_small z : 0 <= z < 2 ^ 64 -> u64 z = z.
Proof. intros H. unfold u64. apply Z.mod_small. exact H. Qed.

Lemma u64_range z : 0 <= u64 z < 2 ^ 64.
Proof. unfold u64. apply Z.mod_pos_bound. lia. Qed.

Lemma u64_wrap_once z : 2 ^ 64 <= z < 2 * 2 ^ 64 -> u64 z = z - 2 ^ 64.
Proof.
  intros Hz. unfold u64.
  replace z with ((z - 2 ^ 64) + 1 * 2 ^ 64) at 1 by lia.
  rewrite Z.mod_add by lia. apply Z.mod_small. lia.
Qed.

Lemma u64_add_cases a b :
  is_u64 a -> is_u64 b ->
  (a + b < 2 ^ 64 /\ a +% b = a + b) \/
  (2 ^ 64 <= a + b /\ a +% b = a + b - 2 ^ 64).
Proof.
  unfold is_u64, add64. intros Ha Hb.
  destruct (Z.lt_ge_cases (a + b) (2 ^ 64)) as [Hlt | Hge].
  - left. split; [exact Hlt|]. apply u64_small. lia.
  - right. split; [exact Hge|]. apply u64_wrap_once. lia.
Qed.

(** A chain of 64-bit products that stays below 2^64 is exact. *)
Lemma mul64_exact a b : 0 <= a * b < 2 ^ 64 -> a *% b = a * b.
Proof. intros H. unfold mul64. apply u64_small, H. Qed.

Lemma mul64_chain3 a b c d :
  0 <= a -> 1 <= b -> 1 <= c -> 1 <= d ->
  a * b * c * d < 2 ^ 64 ->
  a *% b *% c *% d = a * b * c * d.
Proof.
  intros Ha Hb Hc Hd Hfit.
  assert (H1 : 0 <= a * b) by nia.
  assert (H2 : a * b <= a * b * c) by nia.
  assert (H3 : a * b * c <= a * b * c * d) by nia.
  rewrite (mul64_exact a b) by lia.
  rewrite (mul64_exact (a * b) c) by lia.
  apply mul64_exact. lia.
Qed.

Lemma mul64_chain4 a b c d e :
  0 <= a -> 1 <= b -> 1 <= c -> 1 <= d -> 1 <= e ->
  a * b * c * d * e < 2 ^ 64 ->
  a *% b *% c *% d *% e = a * b * c * d * e.
Proof.
  intros Ha Hb Hc Hd He Hfit.
  assert (H1 : 0 <= a * b) by nia.
  assert (H2 : a * b <= a * b * c) by nia.
  assert (H3 : a * b * c <= a * b * c * d) by nia.
  assert (H4 : a * b * c * d <= a * b * c * d * e) by nia.
  rewrite (mul64_exact a b) by lia.
  rewrite (mul64_exact (a * b) c) by lia.
  rewrite (mul64_exact (a * b * c) d) by lia.
  apply mul64_exact. lia.
Qed.

Lemma sub64_add64 a b c : a +% b -% c = u64 (a + b - c).
Proof. unfold add64, sub64, u64. apply Zminus_mod_idemp_l. Qed.

Lemma div_le_self a b : 0 <= a -> 1 <= b -> 0 <= a / b <= a.
Proof.
  intros Ha Hb. split; [apply Z.div_pos; lia|].
  apply Z.div_le_upper_bound; nia.
Qed.

Lemma land_mask32 z : Z.land z 0xFFFFFFFF = z mod 2 ^ 32.
Proof. change 0xFFFFFFFF with (Z.ones 32). apply Z.land_ones. lia. Qed.

Lemma shr64_32 z : shr64 z 32 = z / 2 ^ 32.
Proof. unfold shr64. apply Z.shiftr_div_pow2. lia. Qed.

Lemma shl64_32 z : shl64 z 32 = (z * 2 ^ 32) mod 2 ^ 64.
Proof. unfold shl64, u64. rewrite Z.shiftl_mul_pow2 by lia. reflexivity. Qed.

(** A value below 2^32 and a multiple of 2^32 share no bit, so [|] adds. *)
Lemma land_disjoint32 hi lo :
  0 <= lo < 2 ^ 32 -> Z.land (Z.shiftl hi 32) lo = 0.
Proof.
  intros Hlo.
  apply Z.bits_inj'; intros n Hn.
  rewrite Z.land_spec, Z.bits_0.
  destruct (Z.lt_ge_cases n 32) as [Hlt | Hge].
  - rewrite Z.shiftl_spec_low by lia. reflexivity.
  - rewrite (Z.bits_above_log2 lo n).
    + apply andb_false_r.
    + lia.
    + destruct (Z.eq_dec lo 0) as [-> | Hne]; [simpl; lia|].
      apply Z.log2_lt_pow2; [lia|].
      apply Z.lt_le_trans with (2 ^ 32); [lia|].
      apply Z.pow_le_mono_r; lia.
Qed.

Lemma lor_disjoint32 hi lo :
  0 <= lo < 2 ^ 32 ->
  Z.lor (hi * 2 ^ 32) lo = hi * 2 ^ 32 + lo.
Proof.
  intros Hlo.
  rewrite <- Z.shiftl_mul_pow2 by lia.
  rewrite <- Z.lxor_lor by (apply land_disjoint32; exact Hlo).
  symmetry. apply Z.add_nocarry_lxor. apply land_disjoint32; exact Hlo.
Qed.

(** Splitting a value into its 32-bit halves. *)
Lemma split32 x :
  0 <= x ->
  x = (x / 2 ^ 32) * 2 ^ 32 + x mod 2 ^ 32 /\
  0 <= x mod 2 ^ 32 < 2 ^ 32 /\ 0 <= x / 2 ^ 32.
Proof.
  intros Hx.
  pose proof (Z.div_mod x (2 ^ 32) ltac:(lia)).
  pose proof (Z.mod_pos_bound x (2 ^ 32) ltac:(lia)).
  pose proof (Z.div_pos x (2 ^ 32) Hx ltac:(lia)).
  lia.
Qed.

Ltac halves x q r :=
  let E := fresh "E" r in
  let B := fresh "B" r in
  let P := fresh "P" q in
  destruct (split32 x ltac:(lia)) as (E & B & P);
  set (q := x / 2 ^ 32) in *; set (r := x mod 2 ^ 32) in *;
  clearbody q r.

Lemma shl32_wrap r : 0 <= r -> (r * 2 ^ 32) mod 2 ^ 64 = (r mod 2 ^ 32) * 2 ^ 32.
Proof.
  intros Hr.
  change (2 ^ 64) with (2 ^ 32 * 2 ^ 32).
  rewrite Z.mul_mod_distr_r by lia. reflexivity.
Qed.

(** ** WideMultiply: the four partial products *)

Lemma mul_spec a b :
  is_u64 a -> is_u64 b ->
  fst (mul a b) + snd (mul a b) * 2 ^ 64 = a * b /\
  is_u64 (fst (mul a b)) /\ is_u64 (snd (mul a b)).
Proof.
  unfold is_u64. intros Ha Hb.
  unfold mul. cbv zeta. cbn [fst snd].
  rewrite !land_mask32, !shr64_32, !shl64_32.
  unfold add64, mul64.
  halves a aH aL. halves b bH bL.
  assert (aH < 2 ^ 32) by lia. assert (bH < 2 ^ 32) by lia.
  rewrite (u64_small (aL * bL)) by nia.
  halves (aL * bL) c1 lowRes1.
  assert (c1 < 2 ^ 32 - 1) by nia.
  rewrite (u64_small (aH * bL)) by nia.
  rewrite (u64_small (aH * bL + c1)) by nia.
  halves (aH * bL + c1) highResHigh1 highResLow1.
  assert (highResHigh1 < 2 ^ 32) by nia.
  rewrite (u64_small (aL * bH)) by nia.
  halves (aL * bH) c2 lowRes2.
  assert (c2 < 2 ^ 32 - 1) by nia.
  rewrite (u64_small (aH * bH)) by nia.
  rewrite (u64_small (aH * bH + c2)) by nia.
  halves (aH * bH + c2) highResHigh2 highResLow2.
  assert (highResHigh2 < 2 ^ 32) by nia.
  rewrite (u64_small (highResLow1 + lowRes2)) by lia.
  rewrite (shl32_wrap (highResLow1 + lowRes2)) by lia.
  halves (highResLow1 + lowRes2) c3 rl.
  assert (c3 <= 1) by lia.
  rewrite (u64_small (highResHigh1 + highResLow2)) by lia.
  rewrite (u64_small (highResHigh1 + highResLow2 + c3)) by lia.
  halves (highResHigh1 + highResLow2 + c3) c4 d3.
  assert (c4 <= 2) by lia.
  rewrite (u64_small (highResHigh2 + c4)) by lia.
  rewrite (shl32_wrap (highResHigh2 + c4)) by lia.
  rewrite (lor_disjoint32 rl lowRes1) by lia.
  rewrite (Z.lor_comm d3), (lor_disjoint32 _ d3) by lia.
  assert (Hprod : a * b =
    lowRes1 + rl * 2 ^ 32 + d3 * 2 ^ 64 + (highResHigh2 + c4) * 2 ^ 96) by nia.
  assert (Htop : highResHigh2 + c4 < 2 ^ 32) by nia.
  rewrite (Z.mod_small (highResHigh2 + c4)) by lia.
  split; [|split]; nia.
Qed.

(** ** Carry detection *)

Lemma cadd_spec a b :
  is_u64 a -> is_u64 b -> cadd a b = (2 ^ 64 <=? a + b).
Proof.
  intros Ha Hb. unfold cadd.
  destruct (u64_add_cases a b Ha Hb) as [[Hs ->] | [Hs ->]];
    unfold is_u64 in *.
  - rewrite (proj2 (Z.ltb_ge _ _)) by lia.
    symmetry. apply Z.leb_gt. lia.
  - rewrite (proj2 (Z.ltb_lt _ _)) by lia.
    symmetry. apply Z.leb_le. lia.
Qed.

Lemma cadc_spec a b c :
  is_u64 a -> is_u64 b -> cadc a b c = (2 ^ 64 <=? a + b + carry_bit c).
Proof.
  intros Ha Hb. unfold cadc.
  change (u64 (-1)) with (2 ^ 64 - 1).
  destruct (u64_add_cases a b Ha Hb) as [[Hs ->] | [Hs ->]];
    unfold is_u64 in *.
  - rewrite (proj2 (Z.ltb_ge _ _)) by lia. rewrite orb_false_l.
    destruct c; cbn [carry_bit andb].
    + destruct (Z.eqb_spec (a + b) (2 ^ 64 - 1)) as [He | Hne];
        symmetry; [apply Z.leb_le | apply Z.leb_gt]; lia.
    + symmetry. apply Z.leb_gt. lia.
  - rewrite (proj2 (Z.ltb_lt _ _)) by lia. rewrite orb_true_l.
    symmetry. apply Z.leb_le. destruct c; cbn [carry_bit]; lia.
Qed.

(** ** The hash as four limbs *)

Lemma byte_range (b : byte) : 0 <= Z.of_N (Byte.to_N b) < 256.
Proof. pose proof (Byte.to_N_bounded b). lia. Qed.

Lemma le_value_range (bs : list byte) :
  0 <= le_value bs < 2 ^ (8 * Z.of_nat (length bs)).
Proof.
  induction bs as [|b bs IH].
  - cbn. lia.
  - cbn [le_value length].
    replace (8 * Z.of_nat (S (length bs)))
      with (8 + 8 * Z.of_nat (length bs)) by lia.
    rewrite Z.pow_add_r by lia.
    pose proof (byte_range b). change (2 ^ 8) with 256. nia.
Qed.

Lemma le_value_app (a b : list byte) :
  le_value (a ++ b) =
  le_value a + 2 ^ (8 * Z.of_nat (length a)) * le_value b.
Proof.
  induction a as [|x a IH].
  - cbn. lia.
  - cbn [app le_value length]. rewrite IH.
    replace (8 * Z.of_nat (S (length a)))
      with (8 + 8 * Z.of_nat (length a)) by lia.
    rewrite Z.pow_add_r by lia. change (2 ^ 8) with 256. ring.
Qed.

Lemma le_value_split (n : nat) (bs : list byte) :
  (n <= length bs)%nat ->
  le_value bs =
  le_value (take n bs) + 2 ^ (8 * Z.of_nat n) * le_value (drop n bs).
Proof.
  intros Hn. rewrite <- (take_drop n bs) at 1.
  rewrite le_value_app, length_take. repeat f_equal. lia.
Qed.

Lemma hash_word_range (h : hash) (i : nat) : is_u64 (hash_word h i).
Proof.
  unfold hash_word, is_u64.
  pose proof (le_value_range (take 8 (drop (8 * i) h))) as Hr.
  rewrite length_take in Hr.
  assert (2 ^ (8 * Z.of_nat (8 `min` length (drop (8 * i) h))) <= 2 ^ 64).
  { apply Z.pow_le_mono_r; lia. }
  lia.
Qed.

Lemma hash_limbs (h : hash) :
  length h = 32%nat ->
  le_value h =
  hash_word h 0 + hash_word h 1 * 2 ^ 64 + hash_word h 2 * 2 ^ 128
  + hash_word h 3 * 2 ^ 192.
Proof.
  intros Hlen. unfold hash_word.
  rewrite (le_value_split 8 h) by lia.
  rewrite (le_value_split 8 (drop 8 h)) by (rewrite length_drop; lia).
  rewrite drop_drop.
  rewrite (le_value_split 8 (drop (8 + 8) h)) by (rewrite length_drop; lia).
  rewrite drop_drop.
  assert (Hlast : take 8 (drop (8 + 8 + 8) h) = drop (8 + 8 + 8) h).
  { apply take_ge. rewrite length_drop. lia. }
  cbn [Nat.mul Nat.add]. rewrite drop_0.
  change (8 + 8)%nat with 16%nat in *. change (16 + 8)%nat with 24%nat in *.
  rewrite Hlast.
  change (8 * Z.of_nat 8) with 64.
  change (2 ^ 128) with (2 ^ 64 * 2 ^ 64).
  change (2 ^ 192) with (2 ^ 64 * (2 ^ 64 * 2 ^ 64)).
  ring.
Qed.

(** ** WideMultiply and TargetChecker: the claims *)

(** C2. For all 64-bit [a] and [b], the portable four-limb [mul] yields
    [(low, high)] with [high * 2^64 + low] equal to the exact product
    [a * b]; both words are 64-bit values, so nothing is truncated. *)
Theorem mul_exact_product (a b : Z) :
  is_u64 a -> is_u64 b ->
  let '(low, high) := mul a b in
  high * 2 ^ 64 + low = a * b /\ is_u64 low /\ is_u64 high.
Proof.
  intros Ha Hb.
  pose proof (mul_spec a b Ha Hb) as Hm.
  destruct (mul a b) as [low high]. cbn [fst snd] in Hm.
  destruct Hm as (Hp & Hl & Hh). repeat split; try apply Hl; try apply Hh. lia.
Qed.

Lemma mul_exact_product_witness :
  let '(low, high) := mul (2 ^ 64 - 1) (2 ^ 64 - 1) in
  high * 2 ^ 64 + low = (2 ^ 64 - 1) * (2 ^ 64 - 1) /\ is_u64 low /\ is_u64 high.
Proof.
  apply (mul_exact_product (2 ^ 64 - 1) (2 ^ 64 - 1)); unfold is_u64; lia.
Defined.

(** C1. For every 32-byte hash and every 64-bit difficulty, [check_hash]
    answers [true] exactly when the little-endian 256-bit value of the hash
    times the difficulty is strictly below 2^256. *)
Theorem check_hash_iff_product_below_2_256 (h : hash) (difficulty : Z) :
  length h = 32%nat -> is_u64 difficulty ->
  check_hash h difficulty = true <-> le_value h * difficulty < 2 ^ 256.
Proof.
  intros Hlen Hd.
  rewrite (hash_limbs h Hlen). unfold check_hash.
  pose proof (mul_spec _ _ (hash_word_range h 0) Hd) as H0.
  pose proof (mul_spec _ _ (hash_word_range h 1) Hd) as H1.
  pose proof (mul_spec _ _ (hash_word_range h 2) Hd) as H2.
  pose proof (mul_spec _ _ (hash_word_range h 3) Hd) as H3.
  destruct (mul (hash_word h 0) difficulty) as [lo0 hi0].
  destruct (mul (hash_word h 1) difficulty) as [lo1 hi1].
  destruct (mul (hash_word h 2) difficulty) as [lo2 hi2].
  destruct (mul (hash_word h 3) difficulty) as [top hi3].
  cbn [fst snd] in *.
  destruct H0 as (E0 & Bl0 & Bh0), H1 as (E1 & Bl1 & Bh1),
           H2 as (E2 & Bl2 & Bh2), H3 as (E3 & Bl3 & Bh3).
  rewrite (cadd_spec hi0 lo1 Bh0 Bl1).
  rewrite !cadc_spec by assumption.
  unfold is_u64 in *.
  destruct (Z.eqb_spec hi3 0) as [Hz | Hnz]; cbn [negb].
  - destruct (Z.leb_spec (2 ^ 64) (hi0 + lo1)) as [C1 | C1];
      cbn [carry_bit];
      match goal with
      | |- context [2 ^ 64 <=? hi1 + lo2 + ?c] =>
          destruct (Z.leb_spec (2 ^ 64) (hi1 + lo2 + c)) as [C2 | C2]
      end; cbn [carry_bit];
      match goal with
      | |- context [2 ^ 64 <=? hi2 + top + ?c] =>
          destruct (Z.leb_spec (2 ^ 64) (hi2 + top + c)) as [C3 | C3]
      end; cbn [negb]; split; intros Hgoal; try discriminate;
      try reflexivity; lia.
  - split; [discriminate|]. intros Hgoal. exfalso. lia.
Qed.

Lemma check_hash_iff_product_below_2_256_witness :
  check_hash (replicate 31 x00 ++ [x80]) 2 = true <->
  le_value (replicate 31 x00 ++ [x80]) * 2 < 2 ^ 256.
Proof.
  apply (check_hash_iff_product_below_2_256 (replicate 31 x00 ++ [x80]) 2).
  - reflexivity.
  - unfold is_u64. lia.
Defined.

(** ** WideMultiply and TargetChecker: the checks the specification lists *)

(** X1. The two words of [mul] do not depend on the order of the operands. *)
Lemma mul_comm a b : is_u64 a -> is_u64 b -> mul a b = mul b a.
Proof.
  intros Ha Hb.
  pose proof (mul_spec a b Ha Hb) as (E1 & L1 & H1).
  pose proof (mul_spec b a Hb Ha) as (E2 & L2 & H2).
  destruct (mul a b) as [l1 h1], (mul b a) as [l2 h2].
  cbn [fst snd] in *. unfold is_u64 in *.
  assert (h1 = h2) by nia. f_equal; nia.
Qed.

Lemma mul_zero b : is_u64 b -> mul 0 b = (0, 0).
Proof.
  intros Hb.
  pose proof (mul_spec 0 b ltac:(unfold is_u64; lia) Hb) as (E & Hl & Hh).
  destruct (mul 0 b) as [l h]. cbn [fst snd] in *. unfold is_u64 in *.
  f_equal; lia.
Qed.

(** X3. The all-zero hash passes at every difficulty. *)
Lemma check_hash_zero difficulty :
  is_u64 difficulty -> check_hash (replicate 32 x00) difficulty = true.
Proof.
  intros Hd. unfold check_hash.
  change (hash_word (replicate 32 x00) 0) with 0.
  change (hash_word (replicate 32 x00) 1) with 0.
  change (hash_word (replicate 32 x00) 2) with 0.
  change (hash_word (replicate 32 x00) 3) with 0.
  rewrite (mul_zero difficulty Hd). reflexivity.
Qed.

(** The hash with only bit 255 set has value 2^255: at difficulty 2 the
    product is exactly 2^256 and the check fails; at difficulty 1 it passes. *)
Example check_hash_boundary :
  le_value (replicate 31 x00 ++ [x80]) = 2 ^ 255 /\
  check_hash (replicate 31 x00 ++ [x80]) 2 = false /\
  check_hash (replicate 31 x00 ++ [x80]) 1 = true.
Proof. repeat split; reflexivity. Qed.

Example mul_extremes :
  mul 0 (2 ^ 64 - 1) = (0, 0) /\
  mul (2 ^ 64 - 1) (2 ^ 64 - 1) = (1, 2 ^ 64 - 2) /\
  mul (2 ^ 63) 2 = (0, 1) /\
  mul (2 ^ 32) (2 ^ 32) = (0, 1).
Proof. repeat split; reflexivity. Qed.

(** ** Reasoning about the error monad and vector accesses *)

Lemma bind_ret_inv {A B} (m : result A) (k : A -> result B) (b : B) :
  m ≫= k = Ret b -> exists a, m = Ret a /\ k a = Ret b.
Proof. destruct m as [a|f]; cbn; [eauto | discriminate]. Qed.

Lemma bind_ret {A B} (a : A) (k : A -> result B) : Ret a ≫= k = k a.
Proof. reflexivity. Qed.

Lemma assert_ret_inv b u : assert b = Ret u -> b = true.
Proof. destruct b; [reflexivity | discriminate]. Qed.

(** Steps backwards through a computation known to return a value. *)
Ltac ret_inv H :=
  repeat match type of H with
    | mbind _ _ = Ret _ =>
        let a := fresh "a" in
        let E := fresh "E" in
        apply bind_ret_inv in H; destruct H as (a & E & H);
        try (apply assert_ret_inv in E)
    | (if ?c then _ else _) = Ret _ =>
        let C := fresh "C" in destruct c eqn:C
    | (let '(_, _) := (if ?c then _ else _) in _) = Ret _ =>
        let C := fresh "C" in destruct c eqn:C
    | (let '(_, _) := select_profile ?c ?h in _) = Ret _ =>
        let C := fresh "C" in destruct (select_profile c h) eqn:C
    | mret _ = Ret _ => unfold mret, result_ret in H
    | Abort _ = Ret _ => discriminate H
    end.

Lemma at_index_lookup (v : list Z) (i : Z) :
  0 <= i < size v -> exists x, at_index v i = Ret x /\ v !! Z.to_nat i = Some x.
Proof.
  unfold size, at_index. intros Hi.
  destruct (Z.ltb_spec i 0) as [Hneg | _]; [lia|].
  destruct (lookup_lt_is_Some_2 v (Z.to_nat i) ltac:(lia)) as [x Hx].
  exists x. rewrite Hx. split; reflexivity.
Qed.

Lemma at_index_some (v : list Z) (i x : Z) :
  0 <= i -> v !! Z.to_nat i = Some x -> at_index v i = Ret x.
Proof.
  intros Hi E. unfold at_index. rewrite E.
  destruct (Z.ltb_spec i 0); [lia | reflexivity].
Qed.

Lemma at_index_u64 (v : list Z) (i x : Z) :
  Forall is_u64 v -> at_index v i = Ret x -> is_u64 x.
Proof.
  unfold at_index. intros Hall H.
  destruct (i <? 0); [discriminate|].
  destruct (v !! Z.to_nat i) as [y|] eqn:E; [|discriminate].
  injection H as <-. exact (Forall_lookup_1 _ _ _ _ Hall E).
Qed.

Lemma at_index_elem (v : list Z) (i : Z) :
  0 <= i < size v -> exists x, at_index v i = Ret x /\ x ∈ v.
Proof.
  intros Hi. destruct (at_index_lookup v i Hi) as (x & E & Hl).
  exists x. split; [exact E|]. apply list_elem_of_lookup. eauto.
Qed.

(** ** ClassicWindow: the scaled ceiling division *)

(** The wrapped ceiling sum, and the test that detects its wrap. *)
Lemma ceiling_sum_cases low span :
  is_u64 low -> 1 <= span < 2 ^ 64 ->
  (low + span - 1 < 2 ^ 64 /\ low +% span -% 1 = low + span - 1 /\
   (low +% span -% 1 <? low) = false) \/
  (2 ^ 64 <= low + span - 1 /\ (low +% span -% 1 <? low) = true).
Proof.
  unfold is_u64. intros Hl Hs. rewrite sub64_add64.
  destruct (Z.lt_ge_cases (low + span - 1) (2 ^ 64)) as [Hlt | Hge].
  - left. rewrite u64_small by lia. repeat split; lia.
  - right. rewrite u64_wrap_once by lia. split; [lia|].
    apply Z.ltb_lt. lia.
Qed.

Lemma next_difficulty_scale_spec total_work target_seconds time_span :
  is_u64 total_work -> is_u64 target_seconds -> 1 <= time_span < 2 ^ 64 ->
  (total_work * target_seconds + time_span - 1 < 2 ^ 64 /\
   next_difficulty_scale total_work target_seconds time_span =
   (total_work * target_seconds + time_span - 1) / time_span) \/
  (2 ^ 64 <= total_work * target_seconds + time_span - 1 /\
   next_difficulty_scale total_work target_seconds time_span = 0).
Proof.
  intros Hw Ht Hs. unfold next_difficulty_scale.
  pose proof (mul_spec total_work target_seconds Hw Ht) as Hm.
  destruct (mul total_work target_seconds) as [low high].
  cbn [fst snd] in Hm. destruct Hm as (Hp & Hl & Hh).
  unfold is_u64 in *.
  destruct (Z.eqb_spec high 0) as [Hz | Hnz]; cbn [negb orb].
  - destruct (ceiling_sum_cases low time_span Hl Hs)
      as [(Hlt & E & ->) | (Hge & ->)].
    + left. rewrite E. split; [lia|]. f_equal. lia.
    + right. split; [lia | reflexivity].
  - right. split; [lia | reflexivity].
Qed.

(** A ceiling quotient, characterised without division. *)
Lemma ceiling_div_spec p s :
  0 <= p -> 1 <= s ->
  ((p + s - 1) / s - 1) * s < p <= (p + s - 1) / s * s.
Proof.
  intros Hp Hs.
  pose proof (Z.div_mod (p + s - 1) s ltac:(lia)) as Hd.
  pose proof (Z.mod_pos_bound (p + s - 1) s ltac:(lia)) as Hm.
  nia.
Qed.

(** ** ClassicWindow: what the window phase returns *)

Lemma select_profile_range cfg height :
  is_u64 (fst (select_profile cfg height)) /\
  is_u64 (snd (select_profile cfg height)).
Proof.
  unfold select_profile, to_size_t.
  destruct (height >=? _); cbn [fst snd]; split; apply u64_range.
Qed.

Lemma size_vresize n v : 0 <= n -> size (vresize n v) = n.
Proof. intros Hn. unfold size, vresize. rewrite length_resize. lia. Qed.

Lemma size_vsort v : size (vsort v) = size v.
Proof.
  unfold size, vsort. f_equal.
  apply Permutation_length, merge_sort_Permutation.
Qed.

(** Sorting forgets the order of its input. *)
Lemma vsort_permutation (v v' : list Z) : v ≡ₚ v' -> vsort v = vsort v'.
Proof.
  intros Hp. unfold vsort.
  apply (Sorted_unique Z.le); try apply Sorted_merge_sort; try apply _.
  rewrite !merge_sort_Permutation. exact Hp.
Qed.

Lemma next_difficulty_window_some cfg timestamps cumulative_difficulties
    height time_span total_work :
  next_difficulty_window cfg timestamps cumulative_difficulties height
  = Ret (Some (time_span, total_work)) ->
  1 <= time_span < 2 ^ 64 /\ 1 <= total_work < 2 ^ 64.
Proof.
  intros H. unfold next_difficulty_window in H.
  ret_inv H; try discriminate H; injection H as <- <-; split.
  all: try match goal with
    | |- _ <= (if ?t =? 0 then _ else _) < _ =>
        destruct (Z.eqb_spec t 0) as [Hz | Hnz]; [lia|];
        unfold sub64 in *;
        match goal with
        | |- _ <= u64 ?z < _ => pose proof (u64_range z); lia
        end
    end.
  all: match goal with
    | E : (?w >? 0) = true |- _ <= ?w < _ =>
        apply Z.gtb_lt in E; unfold sub64 in *;
        match goal with
        | |- _ <= u64 ?z < _ => pose proof (u64_range z); lia
        end
    end.
Qed.

(** Lines 160-166 for a cut window inside the series: only the assertion on
    the total work is left to fail. *)
Lemma window_tail (timestamps cumulative_difficulties : list Z) cut_begin cut_end :
  size timestamps = size cumulative_difficulties ->
  0 <= cut_begin -> cut_begin + 2 <= cut_end ->
  cut_end <= size timestamps -> size timestamps < 2 ^ 64 ->
  exists time_span c_first c_last,
    1 <= time_span < 2 ^ 64 /\
    c_first ∈ cumulative_difficulties /\ c_last ∈ cumulative_difficulties /\
    (assert ((cut_begin +% 2 <=? cut_end) && (cut_end <=? size timestamps));;
     t_last ← at_index (vsort timestamps) (cut_end -% 1);
     t_first ← at_index (vsort timestamps) cut_begin;
     let time_span := t_last -% t_first in
     let time_span := if time_span =? 0 then 1 else time_span in
     c_last ← at_index cumulative_difficulties (cut_end -% 1);
     c_first ← at_index cumulative_difficulties cut_begin;
     let total_work := c_last -% c_first in
     assert (total_work >? 0);;
     mret (Some (time_span, total_work)))
    = (if c_last -% c_first >? 0
       then Ret (Some (time_span, c_last -% c_first))
       else Abort AssertionFailed).
Proof.
  intros Hlen Hb Hbe He Hn.
  assert (E2 : cut_begin +% 2 = cut_begin + 2)
    by (unfold add64; apply u64_small; lia).
  assert (E1 : cut_end -% 1 = cut_end - 1)
    by (unfold sub64; apply u64_small; lia).
  rewrite E2, E1.
  replace (cut_begin + 2 <=? cut_end) with true by (symmetry; apply Z.leb_le; lia).
  replace (cut_end <=? size timestamps) with true
    by (symmetry; apply Z.leb_le; lia).
  cbn [andb assert]. rewrite bind_ret.
  destruct (at_index_elem (vsort timestamps) (cut_end - 1))
    as (t_last & -> & _); [rewrite size_vsort; lia|].
  destruct (at_index_elem (vsort timestamps) cut_begin)
    as (t_first & -> & _); [rewrite size_vsort; lia|].
  destruct (at_index_elem cumulative_difficulties (cut_end - 1))
    as (c_last & -> & Hcl); [lia|].
  destruct (at_index_elem cumulative_difficulties cut_begin)
    as (c_first & -> & Hcf); [lia|].
  rewrite !bind_ret. cbv zeta.
  exists (if t_last -% t_first =? 0 then 1 else t_last -% t_first),
    c_first, c_last.
  repeat split; try assumption.
  - destruct (Z.eqb_spec (t_last -% t_first) 0); [lia|].
    pose proof (u64_range (t_last - t_first)). unfold sub64 in *. lia.
  - destruct (Z.eqb_spec (t_last -% t_first) 0); [lia|].
    pose proof (u64_range (t_last - t_first)). unfold sub64 in *. lia.
  - destruct (c_last -% c_first >? 0); reflexivity.
Qed.


(** A series longer than the window is handled as its first [W] samples. *)
Lemma next_difficulty_window_truncated cfg timestamps cumulative_difficulties height :
  fst (select_profile cfg height) < size timestamps ->
  next_difficulty_window cfg timestamps cumulative_difficulties height
  = next_difficulty_window cfg
      (vresize (fst (select_profile cfg height)) timestamps)
      (vresize (fst (select_profile cfg height)) cumulative_difficulties)
      height.
Proof.
  destruct (select_profile_range cfg height) as (HW & _).
  unfold next_difficulty_window.
  destruct (select_profile cfg height) as [W C]. cbn [fst snd] in *.
  unfold is_u64 in HW. intros Hlong.
  rewrite (size_vresize W timestamps) by lia.
  replace (size timestamps >? W) with true
    by (symmetry; rewrite Z.gtb_ltb; apply Z.ltb_lt; lia).
  replace (W >? W) with false
    by (symmetry; rewrite Z.gtb_ltb; apply Z.ltb_irrefl).
  reflexivity.
Qed.

(** ** ClassicWindow: the claims *)

(** C3. When [next_difficulty] gets past its window phase with a time span
    and a positive total work (equal lengths, more than one sample, every
    assertion passed) and [target_seconds >= 1], it returns 0 exactly when
    the high word of the 128-bit product is nonzero or the ceiling addition
    [low + time_span - 1] reaches 2^64; otherwise it returns the ceiling of
    [total_work * target_seconds / time_span], which is at least 1. *)
Theorem next_difficulty_zero_iff_overflow
    cfg timestamps cumulative_difficulties target_seconds height
    time_span total_work :
  next_difficulty_window cfg timestamps cumulative_difficulties height
  = Ret (Some (time_span, total_work)) ->
  is_u64 target_seconds -> 1 <= target_seconds ->
  exists r,
    next_difficulty cfg timestamps cumulative_difficulties target_seconds height
    = Ret r /\
    (r = 0 <->
     snd (mul total_work target_seconds) <> 0 \/
     2 ^ 64 <= fst (mul total_work target_seconds) + time_span - 1) /\
    (r <> 0 ->
     1 <= r /\
     (r - 1) * time_span < total_work * target_seconds <= r * time_span).
Proof.
  intros Hw Ht Ht1.
  destruct (next_difficulty_window_some _ _ _ _ _ _ Hw) as (Hs & Hk).
  unfold next_difficulty. rewrite Hw, bind_ret.
  eexists. split; [reflexivity|].
  assert (Hwk : is_u64 total_work) by (unfold is_u64; lia).
  pose proof (mul_spec total_work target_seconds Hwk Ht) as Hm.
  destruct (next_difficulty_scale_spec total_work target_seconds time_span
              Hwk Ht Hs) as [(Hfit & ->) | (Hover & ->)].
  - pose proof (ceiling_div_spec (total_work * target_seconds) time_span
                  ltac:(nia) ltac:(lia)) as Hc.
    assert (Hpos : 1 <= total_work * target_seconds) by nia.
    assert (Hr : 1 <= (total_work * target_seconds + time_span - 1) / time_span).
    { apply Z.div_le_lower_bound; lia. }
    destruct (mul total_work target_seconds) as [low high]. cbn [fst snd] in *.
    unfold is_u64 in *. split; [|intros _; split; [exact Hr | exact Hc]].
    split; [lia|]. intros [Hh | Hl]; exfalso; nia.
  - destruct (mul total_work target_seconds) as [low high]. cbn [fst snd] in *.
    unfold is_u64 in *. split; [|intros Hne; exfalso; apply Hne; reflexivity].
    split; [|reflexivity]. intros _.
    destruct (Z.eq_dec high 0) as [Hz | Hnz]; [right; nia | left; exact Hnz].
Qed.

Lemma next_difficulty_zero_iff_overflow_witness :
  exists r,
    next_difficulty sample_config [100; 110; 130] [0; 10; 30] 10 0 = Ret r /\
    (r = 0 <-> snd (mul 30 10) <> 0 \/ 2 ^ 64 <= fst (mul 30 10) + 30 - 1) /\
    (r <> 0 -> 1 <= r /\ (r - 1) * 30 < 30 * 10 <= r * 30).
Proof.
  apply (next_difficulty_zero_iff_overflow sample_config
           [100; 110; 130] [0; 10; 30] 10 0 30 30).
  - reflexivity.
  - unfold is_u64. lia.
  - lia.
Defined.

(** C7, as stated, fails: with the same time span and target, the larger
    total work 2^63 overflows the 64-bit product and yields 0, below the
    result 2 of the smaller total work 1. *)
Lemma next_difficulty_total_work_not_monotone :
  next_difficulty_window sample_config [0; 1] [0; 1] 0 = Ret (Some (1, 1)) /\
  next_difficulty_window sample_config [0; 1] [0; 2 ^ 63] 0
  = Ret (Some (1, 2 ^ 63)) /\
  1 <= 2 ^ 63 /\
  next_difficulty sample_config [0; 1] [0; 1] 2 0 = Ret 2 /\
  next_difficulty sample_config [0; 1] [0; 2 ^ 63] 2 0 = Ret 0 /\
  ~ (2 <= 0).
Proof. repeat split; try reflexivity; lia. Qed.

(** C7, amended. For two inputs that get past the window phase with the same
    time span, and the same target, where the first total work is at most the
    second: if the second result is not the overflow value 0, the first
    result is at most the second. *)
Theorem next_difficulty_monotone_in_total_work
    cfg timestamps1 cumulative_difficulties1 height1
    timestamps2 cumulative_difficulties2 height2
    target_seconds time_span total_work1 total_work2 r2 :
  next_difficulty_window cfg timestamps1 cumulative_difficulties1 height1
  = Ret (Some (time_span, total_work1)) ->
  next_difficulty_window cfg timestamps2 cumulative_difficulties2 height2
  = Ret (Some (time_span, total_work2)) ->
  is_u64 target_seconds ->
  total_work1 <= total_work2 ->
  next_difficulty cfg timestamps2 cumulative_difficulties2 target_seconds height2
  = Ret r2 ->
  r2 <> 0 ->
  exists r1,
    next_difficulty cfg timestamps1 cumulative_difficulties1 target_seconds
      height1 = Ret r1 /\
    r1 <= r2.
Proof.
  intros Hw1 Hw2 Ht Hle Hr2 Hnz.
  destruct (next_difficulty_window_some _ _ _ _ _ _ Hw1) as (Hs & Hk1).
  destruct (next_difficulty_window_some _ _ _ _ _ _ Hw2) as (_ & Hk2).
  unfold next_difficulty in *. rewrite Hw1, bind_ret. rewrite Hw2, bind_ret in Hr2.
  injection Hr2 as <-.
  eexists. split; [reflexivity|].
  assert (H1 : is_u64 total_work1) by (unfold is_u64; lia).
  assert (H2 : is_u64 total_work2) by (unfold is_u64; lia).
  destruct (next_difficulty_scale_spec total_work2 target_seconds time_span
              H2 Ht Hs) as [(Hfit2 & E2) | (Hover & E2)];
    [|rewrite E2 in Hnz; exfalso; apply Hnz; reflexivity].
  unfold is_u64 in *.
  destruct (next_difficulty_scale_spec total_work1 target_seconds time_span
              H1 Ht Hs) as [(Hfit1 & E1) | (Hover & E1)]; [|exfalso; nia].
  rewrite E1, E2.
  replace (total_work1 * target_seconds + time_span - 1)
    with (total_work1 * target_seconds + (time_span - 1)) by ring.
  replace (total_work2 * target_seconds + time_span - 1)
    with (total_work2 * target_seconds + (time_span - 1)) by ring.
  apply Z.div_le_mono; [lia | nia].
Qed.

Lemma next_difficulty_monotone_in_total_work_witness :
  exists r1,
    next_difficulty sample_config [100; 110; 130] [0; 10; 30] 10 0 = Ret r1 /\
    r1 <= 20.
Proof.
  apply (next_difficulty_monotone_in_total_work sample_config
           [100; 110; 130] [0; 10; 30] 0 [200; 210; 230] [5; 10; 65] 0
           10 30 30 60 20).
  - reflexivity.
  - reflexivity.
  - unfold is_u64. lia.
  - lia.
  - reflexivity.
  - lia.
Defined.

(** C8. For a timestamp series no longer than the window that the height
    selects (so that nothing is truncated), [next_difficulty] returns the
    same for every permutation of the timestamps, with the cumulative work,
    the target and the height held fixed. *)
Theorem next_difficulty_timestamp_order_irrelevant
    cfg (timestamps timestamps' cumulative_difficulties : list Z)
    target_seconds height :
  timestamps ≡ₚ timestamps' ->
  size timestamps <= fst (select_profile cfg height) ->
  next_difficulty cfg timestamps cumulative_difficulties target_seconds height
  = next_difficulty cfg timestamps' cumulative_difficulties target_seconds
      height.
Proof.
  intros Hp Hsz.
  assert (Hlen : size timestamps' = size timestamps).
  { unfold size. f_equal. symmetry. apply Permutation_length, Hp. }
  unfold next_difficulty, next_difficulty_window.
  destruct (select_profile cfg height) as [w c]. cbn [fst] in Hsz.
  rewrite Hlen.
  replace (size timestamps >? w) with false 
    by (symmetry; rewrite Z.gtb_ltb; apply Z.ltb_ge; lia).
  rewrite Hlen, (vsort_permutation _ _ Hp). reflexivity.
Qed.

Lemma next_difficulty_timestamp_order_irrelevant_witness :
  next_difficulty sample_config [130; 100; 110] [0; 10; 30] 10 0
  = next_difficulty sample_config [100; 110; 130] [0; 10; 30] 10 0.
Proof.
  apply (next_difficulty_timestamp_order_irrelevant sample_config
           [130; 100; 110] [100; 110; 130] [0; 10; 30] 10 0).
  - apply (Permutation_cons_append [100; 110] 130).
  - vm_compute. discriminate.
Defined.

(** ** ClassicWindow: the checks the specification lists *)

Example next_difficulty_three_samples :
  next_difficulty_window sample_config [100; 110; 130] [0; 10; 30] 0
  = Ret (Some (30, 30)) /\
  next_difficulty sample_config [100; 110; 130] [0; 10; 30] 10 0 = Ret 10.
Proof. split; reflexivity. Qed.

Example next_difficulty_single_sample :
  next_difficulty sample_config [100] [7] 10 0 = Ret 1.
Proof. reflexivity. Qed.

(** Series of different lengths fail the assertion of line 142. *)
Example next_difficulty_length_mismatch :
  next_difficulty sample_config [100; 110; 130] [0; 10] 10 0
  = Abort AssertionFailed.
Proof. reflexivity. Qed.

(** A total work of zero fails the assertion of line 166. *)
Example next_difficulty_no_work :
  next_difficulty sample_config [100; 110; 130] [5; 5; 5] 10 0
  = Abort AssertionFailed.
Proof. reflexivity. Qed.

(** ** The statistics variant against [next_difficulty] *)

Lemma static_asserts_sizes cfg :
  static_asserts cfg ->
  to_size_t (DIFFICULTY_WINDOW cfg) = DIFFICULTY_WINDOW cfg /\
  to_size_t (DIFFICULTY_CUT cfg) = DIFFICULTY_CUT cfg /\
  2 *% DIFFICULTY_CUT cfg = 2 * DIFFICULTY_CUT cfg /\
  DIFFICULTY_WINDOW cfg -% 2 = DIFFICULTY_WINDOW cfg - 2 /\
  DIFFICULTY_WINDOW cfg -% 2 * DIFFICULTY_CUT cfg
  = to_size_t (DIFFICULTY_WINDOW cfg - 2 * DIFFICULTY_CUT cfg).
Proof.
  unfold static_asserts, to_size_t, mul64, sub64. intros (Hc & Hw & Hw2 & Hcut).
  rewrite !u64_small by lia. repeat split; reflexivity.
Qed.

(** Walks both computations forward, one test or vector access at a time. *)
Ltac run_both :=
  repeat (cbn [mbind result_bind mret result_ret fmap result_fmap fst];
          match goal with
          | |- context [if ?c then _ else _] =>
              destruct c eqn:?; try reflexivity
          | |- context [at_index ?v ?i] =>
              destruct (at_index v i) eqn:?; try reflexivity
          | |- context [mul ?a ?b] => destruct (mul a b)
          end).

Lemma with_statistics_value
    cfg (recorder : Type)
    (insert_next_difficulty : recorder -> Z -> Z -> Z -> Z -> recorder)
    st blockheight timestamps cumulative_difficulties target_seconds h0 :
  static_asserts cfg ->
  h0 < to_size_t (DIFFICULTY_ADJUST_HEIGHT cfg) ->
  fst <$> next_difficulty_with_statistics cfg recorder insert_next_difficulty
            st blockheight timestamps cumulative_difficulties target_seconds
  = next_difficulty cfg timestamps cumulative_difficulties target_seconds h0.
Proof.
  intros Hsa Hh.
  destruct (static_asserts_sizes cfg Hsa) as (Ew & Ec & E2c & Ew2 & Ewc).
  unfold next_difficulty, next_difficulty_window,
    next_difficulty_with_statistics, next_difficulty_scale, select_profile.
  replace (h0 >=? to_size_t (DIFFICULTY_ADJUST_HEIGHT cfg)) with false
    by (symmetry; rewrite Z.geb_leb; apply Z.leb_gt; lia).
  rewrite Ew, Ec, E2c, Ew2, Ewc.
  replace (DIFFICULTY_WINDOW cfg >=? 2) with true
    by (symmetry; rewrite Z.geb_leb; apply Z.leb_le;
        unfold static_asserts in Hsa; lia).
  replace (2 * DIFFICULTY_CUT cfg <=? DIFFICULTY_WINDOW cfg - 2) with true
    by (symmetry; apply Z.leb_le; unfold static_asserts in Hsa; lia).
  unfold assert. run_both.
Qed.

(** C4. Under the two [static_assert]s of the statistics variant, for every
    input and every block height, [next_difficulty_with_statistics] returns
    what [next_difficulty] returns at any height below the adjustment fork
    height; this holds for every recorder and recorder state, in particular
    for the sqlite recorder whether its statistics are open or closed and
    whatever sqlite answers to the insert. *)
Theorem next_difficulty_with_statistics_agrees
    cfg blockheight timestamps cumulative_difficulties target_seconds h0 :
  static_asserts cfg ->
  h0 < to_size_t (DIFFICULTY_ADJUST_HEIGHT cfg) ->
  (forall (recorder : Type)
          (insert_next_difficulty : recorder -> Z -> Z -> Z -> Z -> recorder)
          (st : recorder),
      fst <$> next_difficulty_with_statistics cfg recorder
                insert_next_difficulty st blockheight timestamps
                cumulative_difficulties target_seconds
      = next_difficulty cfg timestamps cumulative_difficulties
          target_seconds h0) /\
  (forall begin_ok prepare_ok step_ok (db : BlockchainSQLITEDB),
      fst <$> next_difficulty_with_statistics cfg BlockchainSQLITEDB
                (sqlite_recorder begin_ok prepare_ok step_ok) db blockheight
                timestamps cumulative_difficulties target_seconds
      = next_difficulty cfg timestamps cumulative_difficulties
          target_seconds h0).
Proof.
  intros Hsa Hh. split.
  - intros recorder ins st. apply with_statistics_value; assumption.
  - intros b p s db. apply with_statistics_value; assumption.
Qed.

Lemma next_difficulty_with_statistics_agrees_witness :
  (forall (recorder : Type)
          (insert_next_difficulty : recorder -> Z -> Z -> Z -> Z -> recorder)
          (st : recorder),
      fst <$> next_difficulty_with_statistics sample_config recorder
                insert_next_difficulty st 5000 [100; 110; 130] [0; 10; 30] 10
      = next_difficulty sample_config [100; 110; 130] [0; 10; 30] 10 999) /\
  (forall begin_ok prepare_ok step_ok (db : BlockchainSQLITEDB),
      fst <$> next_difficulty_with_statistics sample_config BlockchainSQLITEDB
                (sqlite_recorder begin_ok prepare_ok step_ok) db 5000
                [100; 110; 130] [0; 10; 30] 10
      = next_difficulty sample_config [100; 110; 130] [0; 10; 30] 10 999).
Proof.
  apply (next_difficulty_with_statistics_agrees sample_config 5000
           [100; 110; 130] [0; 10; 30] 10 999).
  - unfold static_asserts. cbn. lia.
  - vm_compute. reflexivity.
Defined.

(** The sqlite recorder: closed statistics store nothing, and an insert that
    sqlite accepts appends the forwarded row. *)
Lemma sqlite_recorder_closed begin_ok prepare_ok step_ok db h t w d :
  m_statistics_open db = false ->
  sqlite_recorder begin_ok prepare_ok step_ok db h t w d = db.
Proof.
  intros Hc. unfold sqlite_recorder, db_insert_next_difficulty.
  rewrite Hc. reflexivity.
Qed.

Lemma sqlite_recorder_stores db h t w d :
  m_statistics_open db = true ->
  t_next_block_difficulty (sqlite_recorder true true true db h t w d)
  = t_next_block_difficulty db ++ [(h, t, w, d)].
Proof.
  intros Ho. unfold sqlite_recorder, db_insert_next_difficulty.
  rewrite Ho. reflexivity.
Qed.

(** A computed difficulty is forwarded with its height, time span and total
    work. *)
Example with_statistics_records :
  next_difficulty_with_statistics sample_config BlockchainSQLITEDB
    (sqlite_recorder true true true)
    {| m_statistics_open := true; t_next_block_difficulty := [] |}
    5000 [100; 110; 130] [0; 10; 30] 10
  = Ret (10, {| m_statistics_open := true;
                t_next_block_difficulty := [(5000, 30, 30, 10)] |}).
Proof. reflexivity. Qed.

(** ** LWMA1Window: the digit rounding *)

Lemma p10_S k : p10 (S k) = 10 * p10 k.
Proof. unfold p10. rewrite Nat2Z.inj_succ, Z.pow_succ_r by lia. reflexivity. Qed.

Lemma p10_pos k : 1 <= p10 k.
Proof. induction k as [|k IH]; [change (p10 0) with 1; lia | rewrite p10_S; lia]. Qed.

Lemma p10_mono k k' : (k <= k')%nat -> p10 k <= p10 k'.
Proof. intros H. unfold p10. apply Z.pow_le_mono_r; lia. Qed.

Lemma p10_divide k k' : (k' <= k)%nat -> (p10 k' | p10 k).
Proof.
  intros H. exists (p10 (k - k')). unfold p10.
  rewrite <- Z.pow_add_r by lia. f_equal. lia.
Qed.

Lemma p10_le_9 k : (k <= 9)%nat -> p10 k <= 1000000000.
Proof. intros H. change 1000000000 with (p10 9). apply p10_mono, H. Qed.

Lemma round_loop_scale fuel k y :
  (k <= 9)%nat ->
  round_loop (S fuel) (p10 (S k)) y =
  if y >? 100 * p10 (S k) then round_at (p10 (S k)) y
  else round_loop fuel (p10 k) y.
Proof.
  intros Hk. cbn [round_loop].
  pose proof (p10_pos k) as Hp. pose proof (p10_le_9 k Hk) as Hq.
  rewrite p10_S.
  replace (10 * p10 k >? 1) with true by (symmetry; apply Z.gtb_lt; lia).
  unfold mul64 at 1. rewrite u64_small by lia.
  replace (10 * p10 k * 100) with (100 * (10 * p10 k)) by ring.
  replace (10 * p10 k / 10) with (p10 k)
    by (rewrite Z.mul_comm, Z.div_mul by lia; reflexivity).
  reflexivity.
Qed.

Lemma round_loop_unit fuel y : round_loop fuel (p10 0) y = y.
Proof. destruct fuel; reflexivity. Qed.

(** The fuel does not matter once it covers the scales that are left. *)
Lemma round_loop_fuel fuel fuel' k x :
  (k <= fuel)%nat -> (k <= fuel')%nat -> (k <= 9)%nat ->
  round_loop fuel (p10 k) x = round_loop fuel' (p10 k) x.
Proof.
  revert fuel fuel'. induction k as [|k IH]; intros fuel fuel' Hf Hf' Hk.
  - rewrite !round_loop_unit. reflexivity.
  - destruct fuel as [|fuel]; [lia|]. destruct fuel' as [|fuel']; [lia|].
    rewrite !round_loop_scale by lia.
    destruct (x >? 100 * p10 (S k)); [reflexivity|]. apply IH; lia.
Qed.

Lemma round_digits_any_fuel n x :
  round_loop (10 + n) 1000000000 x = round_digits x.
Proof.
  unfold round_digits. change 1000000000 with (p10 9).
  apply round_loop_fuel; lia.
Qed.

Lemma round_loop_scales fuel k x :
  (k <= fuel)%nat -> (k <= 9)%nat ->
  round_loop fuel (p10 k) x = round_at_first (scales_from k) x.
Proof.
  revert fuel. induction k as [|k IH]; intros fuel Hf Hk.
  - apply round_loop_unit.
  - destruct fuel as [|fuel]; [lia|].
    rewrite round_loop_scale by lia. cbn [scales_from round_at_first].
    destruct (x >? 100 * p10 (S k)); [reflexivity|]. apply IH; lia.
Qed.

(** The loop of lines 273-277 is the rounding step the specification words. *)
Lemma round_digits_is_spec x : round_digits x = rounding_step_spec x.
Proof.
  unfold round_digits, rounding_step_spec. change 1000000000 with (p10 9).
  rewrite round_loop_scales by lia. reflexivity.
Qed.

(** A multiple of the scale is left as it is. *)
Lemma round_at_multiple s y :
  2 <= s -> 0 <= y -> y + s / 2 < 2 ^ 64 -> (s | y) -> round_at s y = y.
Proof.
  intros Hs Hy Hb [c ->]. unfold round_at, add64, mul64.
  assert (0 <= s / 2 < s) by (split; [apply Z.div_pos | apply Z.div_lt]; lia).
  rewrite (u64_small (c * s + s / 2)) by lia.
  rewrite Z.div_add_l by lia.
  rewrite (Z.div_small (s / 2) s) by lia.
  rewrite Z.add_0_r. apply u64_small. lia.
Qed.

(** The rounded value is a multiple of the scale, below the wrapped sum. *)
Lemma round_at_shape s x :
  2 <= s ->
  (s | round_at s x) /\ 0 <= round_at s x <= u64 (x + s / 2).
Proof.
  intros Hs. unfold round_at, add64, mul64.
  pose proof (u64_range (x + s / 2)) as Hr.
  set (v := u64 (x + s / 2)) in *.
  pose proof (Z.mul_div_le v s ltac:(lia)) as Hle.
  pose proof (Z.div_pos v s ltac:(lia) ltac:(lia)) as Hq.
  rewrite (u64_small (v / s * s)) by nia.
  split; [exists (v / s); reflexivity | nia].
Qed.

Lemma round_at_below s x m :
  2 <= s -> 0 <= x -> x + s / 2 < 2 ^ 64 -> x <= m * s ->
  round_at s x <= m * s.
Proof.
  intros Hs Hx Hb Hm. unfold round_at, add64, mul64.
  assert (0 <= s / 2 < s) by (split; [apply Z.div_pos | apply Z.div_lt]; lia).
  rewrite (u64_small (x + s / 2)) by lia.
  assert (Hq : (x + s / 2) / s <= m).
  { apply Z.lt_succ_r. apply Z.div_lt_upper_bound; lia. }
  pose proof (Z.div_pos (x + s / 2) s ltac:(lia) ltac:(lia)) as Hq0.
  pose proof (Z.mul_div_le (x + s / 2) s ltac:(lia)) as Hle.
  rewrite u64_small by nia. nia.
Qed.

(** A value that is a multiple of every scale it exceeds is a fixed point. *)
Lemma round_loop_fixed fuel k y :
  (k <= 9)%nat -> 0 <= y -> y + p10 k / 2 < 2 ^ 64 ->
  (forall j, (1 <= j <= k)%nat -> 100 * p10 j < y -> (p10 j | y)) ->
  round_loop fuel (p10 k) y = y.
Proof.
  revert k. induction fuel as [|fuel IH]; intros k Hk Hy Hb Hdiv.
  - reflexivity.
  - destruct k as [|k]; [apply round_loop_unit|].
    rewrite round_loop_scale by lia.
    pose proof (p10_pos k) as Hp.
    destruct (Z.gtb_spec y (100 * p10 (S k))) as [Hgt | Hle].
    + apply round_at_multiple; try assumption.
      * rewrite p10_S. lia.
      * apply Hdiv; lia.
    + apply IH; try lia.
      * assert (p10 k / 2 <= p10 (S k) / 2).
        { apply Z.div_le_mono; [lia|]. rewrite p10_S. lia. }
        lia.
      * intros j Hj. apply Hdiv. lia.
Qed.

(** What the loop returns: the input when no scale qualifies, and otherwise
    the rounding at the first (largest) scale that does. *)
Lemma round_loop_shape fuel k x :
  (k <= fuel)%nat -> (k <= 9)%nat ->
  (round_loop fuel (p10 k) x = x /\
   forall j, (1 <= j <= k)%nat -> x <= 100 * p10 j) \/
  (exists j, (1 <= j <= k)%nat /\ 100 * p10 j < x /\
     (forall j', (j < j' <= k)%nat -> x <= 100 * p10 j') /\
     round_loop fuel (p10 k) x = round_at (p10 j) x).
Proof.
  revert k. induction fuel as [|fuel IH]; intros k Hf Hk.
  - left. split; [reflexivity|]. intros j Hj. lia.
  - destruct k as [|k].
    + left. split; [apply round_loop_unit|]. intros j Hj. lia.
    + rewrite round_loop_scale by lia.
      destruct (Z.gtb_spec x (100 * p10 (S k))) as [Hgt | Hle].
      * right. exists (S k). repeat split; try lia.
      * destruct (IH k ltac:(lia) ltac:(lia)) as [[E Hall] | (j & Hj & Hq & Hab & E)].
        -- left. split; [exact E|]. intros j Hj.
           destruct (Nat.eq_dec j (S k)) as [-> | Hne]; [exact Hle|].
           apply Hall. lia.
        -- right. exists j. repeat split; try lia; try exact E.
           intros j' Hj'.
           destruct (Nat.eq_dec j' (S k)) as [-> | Hne]; [exact Hle|].
           apply Hab. lia.
Qed.

(** Rounding keeps a positive value positive when its addition cannot wrap. *)
Lemma round_digits_lower y :
  1 <= y -> y + 500000000 < 2 ^ 64 -> 1 <= round_digits y.
Proof.
  intros Hy Hb. unfold round_digits. change 1000000000 with (p10 9).
  destruct (round_loop_shape 10 9 y ltac:(lia) ltac:(lia))
    as [[-> _] | (j & Hj & Hq & _ & ->)]; [exact Hy|].
  pose proof (p10_pos j) as Hs. pose proof (p10_le_9 j ltac:(lia)) as Hs9.
  set (s := p10 j) in *.
  assert (Hhalf : 0 <= s / 2 <= 500000000).
  { split; [apply Z.div_pos; lia | apply Z.div_le_upper_bound; lia]. }
  unfold round_at, add64, mul64.
  rewrite (u64_small (y + s / 2)) by lia.
  assert (Hq100 : 100 <= (y + s / 2) / s).
  { apply Z.div_le_lower_bound; lia. }
  pose proof (Z.mul_div_le (y + s / 2) s ltac:(lia)) as Hle.
  rewrite u64_small by nia. nia.
Qed.

(** C9. The digit-rounding step of [LWMA1_] is idempotent on every 64-bit
    value: rounding an already rounded value changes nothing. *)
Theorem round_digits_idempotent (x : Z) :
  is_u64 x -> round_digits (round_digits x) = round_digits x.
Proof.
  unfold is_u64. intros Hx. unfold round_digits.
  change 1000000000 with (p10 9).
  destruct (round_loop_shape 10 9 x ltac:(lia) ltac:(lia))
    as [[E _] | (j & Hj & Hq & Hab & E)].
  - rewrite !E. reflexivity.
  - rewrite E.
    pose proof (p10_pos j) as Hp1.
    assert (Hs : 2 <= p10 j).
    { destruct j as [|j]; [lia|]. rewrite p10_S. pose proof (p10_pos j). lia. }
    pose proof (p10_le_9 j ltac:(lia)) as Hs9.
    destruct (round_at_shape (p10 j) x Hs) as (Hdiv & Hy0 & Hy1).
    pose proof (u64_range (x + p10 j / 2)) as Hu.
    assert (Hhalf : 0 <= p10 j / 2 < p10 j)
      by (split; [apply Z.div_pos | apply Z.div_lt]; lia).
    apply round_loop_fixed; try lia.
    + change (p10 9) with 1000000000.
      change (1000000000 / 2) with 500000000.
      destruct (Nat.eq_dec j 9%nat) as [-> | Hne].
      * change (p10 9) with 1000000000 in *.
        destruct Hdiv as [c Hc]. lia.
      * assert (Hx9 : x <= 100 * p10 9) by (apply Hab; lia).
        change (p10 9) with 1000000000 in Hx9.
        rewrite u64_small in Hy1 by lia. lia.
    + intros j0 Hj0 Hbig.
      destruct (le_lt_dec j0 j) as [Hle | Hlt].
      * apply Z.divide_trans with (p10 j); [apply p10_divide, Hle | exact Hdiv].
      * exfalso.
        assert (Hxj : x <= 100 * p10 j0) by (apply Hab; lia).
        destruct (p10_divide j0 j ltac:(lia)) as [m Hm].
        assert (Hj09 : p10 j0 <= 1000000000) by (apply p10_le_9; lia).
        assert (round_at (p10 j) x <= (100 * m) * p10 j).
        { apply round_at_below; try lia. }
        lia.
Qed.

Lemma round_digits_idempotent_witness :
  round_digits (round_digits 123456789012345) = round_digits 123456789012345.
Proof.
  apply (round_digits_idempotent 123456789012345). unfold is_u64. lia.
Defined.

(** ** LWMA1Window: the accumulation loop and the scaled average *)

(** One iteration: the clamped solve time lies in [1, 6T]. *)
Lemma clamped_solvetime_bounds T timestamp_i previous_timestamp :
  1 <= T -> 6 * T < 2 ^ 64 ->
  is_u64 timestamp_i -> is_u64 previous_timestamp ->
  1 <= clamped_solvetime T timestamp_i previous_timestamp <= 6 * T /\
  is_u64 (this_timestamp_of timestamp_i previous_timestamp).
Proof.
  unfold is_u64, clamped_solvetime, this_timestamp_of. intros HT H6 Ht Hp.
  unfold mul64. rewrite (u64_small (6 * T)) by lia.
  destruct (Z.gtb_spec timestamp_i previous_timestamp) as [Hgt | Hle].
  - unfold sub64. rewrite u64_small by lia. lia.
  - pose proof (u64_range (previous_timestamp + 1)) as Hr.
    unfold add64, sub64. split; [|exact Hr].
    destruct (Z.eq_dec previous_timestamp (2 ^ 64 - 1)) as [-> | Hne].
    + change (u64 (2 ^ 64 - 1 + 1)) with 0.
      change (u64 (0 - (2 ^ 64 - 1))) with 1. lia.
    + rewrite (u64_small (previous_timestamp + 1)) by lia.
      replace (previous_timestamp + 1 - previous_timestamp) with 1 by ring.
      change (u64 1) with 1. lia.
Qed.

(** The loop from index [i]: twice the accumulated [L] stays between
    [(i-1)*i] and [6T*(i-1)*i] as long as nothing wraps. *)
Lemma lwma_loop_bounds (n : nat) (timestamps : list Z) (T i L previous_timestamp : Z) :
  1 <= T -> 1 <= i ->
  Forall is_u64 timestamps ->
  i + Z.of_nat n <= size timestamps ->
  3 * T * (i + Z.of_nat n - 1) * (i + Z.of_nat n) < 2 ^ 64 ->
  is_u64 previous_timestamp ->
  (i - 1) * i <= 2 * L <= 6 * T * ((i - 1) * i) ->
  exists L' previous_timestamp',
    lwma_loop n timestamps T i L previous_timestamp
    = Ret (L', previous_timestamp') /\
    (i + Z.of_nat n - 1) * (i + Z.of_nat n) <= 2 * L'
      <= 6 * T * ((i + Z.of_nat n - 1) * (i + Z.of_nat n)).
Proof.
  revert i L previous_timestamp.
  induction n as [|n IH]; intros i L prev HT Hi Hall Hlen Hfit Hp HL.
  - exists L, prev. split; [reflexivity|].
    replace (i + Z.of_nat 0) with i by lia. lia.
  - cbn [lwma_loop].
    destruct (at_index_lookup timestamps i ltac:(lia)) as (t & Et & _).
    rewrite Et, bind_ret.
    pose proof (at_index_u64 _ _ _ Hall Et) as Htu.
    assert (Hin : i * (i + 1) <= (i + Z.of_nat (S n) - 1) * (i + Z.of_nat (S n)))
      by nia.
    assert (H6 : 6 * T < 2 ^ 64) by nia.
    destruct (clamped_solvetime_bounds T t prev HT H6 Htu Hp) as (Hst & Hthis).
    set (st := clamped_solvetime T t prev) in *.
    assert (Hist : 0 <= i * st <= 6 * T * i) by nia.
    assert (Hcap : 3 * T * (i * (i + 1)) < 2 ^ 64) by nia.
    assert (EL : L +% i *% st = L + i * st).
    { unfold add64, mul64. rewrite (u64_small (i * st)) by nia.
      apply u64_small. nia. }
    assert (Ei : i +% 1 = i + 1).
    { unfold add64. apply u64_small. nia. }
    rewrite EL, Ei.
    assert (Hfit' : 3 * T * (i + 1 + Z.of_nat n - 1) * (i + 1 + Z.of_nat n)
                    < 2 ^ 64).
    { replace (i + 1 + Z.of_nat n - 1) with (i + Z.of_nat (S n) - 1) by lia.
      replace (i + 1 + Z.of_nat n) with (i + Z.of_nat (S n)) by lia.
      exact Hfit. }
    assert (HL' : (i + 1 - 1) * (i + 1) <= 2 * (L + i * st)
                  <= 6 * T * ((i + 1 - 1) * (i + 1))).
    { replace (i + 1 - 1) with i by ring. nia. }
    destruct (IH (i + 1) (L + i * st) (this_timestamp_of t prev)
                HT ltac:(lia) Hall ltac:(lia) Hfit' Hthis HL')
      as (L' & p' & E & HB).
    exists L', p'. split; [exact E|].
    replace (i + Z.of_nat (S n) - 1) with (i + 1 + Z.of_nat n - 1) by lia.
    replace (i + Z.of_nat (S n)) with (i + 1 + Z.of_nat n) by lia.
    exact HB.
Qed.

(** After the loop and the floor, [L] is bounded on both sides. *)
Lemma lwma_L_bounds (timestamps : list Z) (T N : Z) :
  1 <= T -> 1 <= N ->
  Forall is_u64 timestamps ->
  size timestamps = N + 1 ->
  3 * T * N * (N + 1) < 2 ^ 64 ->
  exists L,
    lwma_L timestamps T N = Ret L /\
    N * (N + 1) <= 2 * L /\ N * N * T / 20 <= L /\
    L <= 3 * T * N * (N + 1).
Proof.
  intros HT HN Hall Hlen Hfit. unfold lwma_L.
  destruct (at_index_lookup timestamps 0 ltac:(lia)) as (t0 & E0 & _).
  rewrite E0, bind_ret.
  assert (Hfit1 : 3 * T * (1 + Z.of_nat (Z.to_nat N) - 1)
                  * (1 + Z.of_nat (Z.to_nat N)) < 2 ^ 64).
  { rewrite Z2Nat.id by lia.
    replace (1 + N - 1) with N by ring. replace (1 + N) with (N + 1) by ring.
    lia. }
  destruct (lwma_loop_bounds (Z.to_nat N) timestamps T 1 0 (t0 -% T)
              HT ltac:(lia) Hall ltac:(lia) Hfit1 (u64_range _) ltac:(lia))
    as (L & p & E & HB).
  rewrite E, bind_ret. cbn beta iota.
  rewrite Z2Nat.id in HB by lia.
  replace (1 + N - 1) with N in HB by ring.
  replace (1 + N) with (N + 1) in HB by ring.
  assert (Efloor : N *% N *% T = N * N * T).
  { unfold mul64. rewrite (u64_small (N * N)) by nia. apply u64_small. nia. }
  rewrite Efloor.
  assert (Hfl : 0 <= N * N * T / 20 <= N * N * T).
  { split; [apply Z.div_pos; nia|]. apply Z.div_le_upper_bound; nia. }
  destruct (Z.ltb_spec L (N * N * T / 20)) as [Hlt | Hge].
  - eexists. split; [reflexivity|]. nia.
  - eexists. split; [reflexivity|]. nia.
Qed.

(** What the cap on [2000000*N*N*T] gives for the other products. *)
Lemma lwma_caps T N :
  1 <= T -> 1 <= N -> 2000000 * N * N * T < 2 ^ 64 ->
  N + 1 < 2 ^ 64 /\
  2 <= N * (N + 1) /\
  3 * T * N * (N + 1) < 2 ^ 64 /\
  600 * (3 * T * N * (N + 1)) < 2 ^ 64 /\
  N * (N + 1) * T * 99 < 2 ^ 64 /\
  600 * T * (N * (N + 1)) <= 2000000 * N * N * T.
Proof.
  intros HT HN Hcap.
  assert (HQ : 1 <= N * N) by nia.
  assert (HK : N * (N + 1) <= 2 * (N * N)) by nia.
  assert (HQT : N * N <= N * N * T) by nia.
  assert (HKT : N * (N + 1) * T <= 2 * (N * N * T)) by nia.
  assert (HN2 : N <= N * N) by nia.
  repeat split; nia.
Qed.

(** Division first: the quotient is positive and the product stays small. *)
Lemma lwma_divide_first T K L D :
  1 <= T -> 2 <= K -> K <= 2 * L -> L <= 3 * T * K ->
  600 * T * K < D -> D * T < 2 ^ 64 - 500000000 ->
  1 <= D / (200 * L) * (K * T * 99) /\
  D / (200 * L) * (K * T * 99) + 500000000 < 2 ^ 64.
Proof.
  intros HT HK HKL HL HD Hfit.
  assert (Hq1 : 1 <= D / (200 * L)) by (apply Z.div_le_lower_bound; lia).
  pose proof (Z.mul_div_le D (200 * L) ltac:(lia)) as Hqle.
  set (q := D / (200 * L)) in *. clearbody q.
  assert (Hq2 : q * (100 * K) <= D) by nia.
  assert (Hq3 : q * (100 * K) * T <= D * T) by (apply Z.mul_le_mono_nonneg_r; lia).
  assert (Hq4 : 0 <= q * K * T) by (apply Z.mul_nonneg_nonneg; nia).
  split; [|lia].
  assert (1 <= q * K * T) by nia. lia.
Qed.

(** Product first: the product reaches the divisor. *)
Lemma lwma_multiply_first T K L D :
  1 <= T -> 2 <= K -> K <= 2 * L -> L <= 3 * T * K ->
  7 <= D -> D * K * T * 99 < 2 ^ 64 ->
  1 <= D * K * T * 99 / (200 * L) /\
  D * K * T * 99 / (200 * L) + 500000000 < 2 ^ 64.
Proof.
  intros HT HK HKL HL HD Hfit.
  assert (HKT : 1 <= K * T) by nia.
  assert (Hlow : 200 * L <= D * K * T * 99).
  { assert (600 * (K * T) <= 99 * D * (K * T)) by nia. lia. }
  split.
  - apply Z.div_le_lower_bound; lia.
  - assert (D * K * T * 99 / (200 * L) <= D * K * T * 99 / 200).
    { apply Z.div_le_compat_l; lia. }
    assert (D * K * T * 99 / 200 < 92233720368547759).
    { apply Z.div_lt_upper_bound; lia. }
    lia.
Qed.

(** Outside the bootstrap window, with [L] in hand and a nonzero [200*L],
    [LWMA1_] returns the rounding of the scaled average. *)
Lemma LWMA1_outside_bootstrap
    (timestamps cumulative_difficulties : list Z)
    T N height FORK_HEIGHT difficulty_guess L c_first c_last :
  1 <= N -> N + 1 < 2 ^ 64 ->
  size timestamps = N + 1 ->
  size cumulative_difficulties = N + 1 ->
  in_bootstrap height FORK_HEIGHT N = false ->
  lwma_L timestamps T N = Ret L ->
  0 < 200 * L < 2 ^ 64 ->
  cumulative_difficulties !! 0%nat = Some c_first ->
  cumulative_difficulties !! Z.to_nat N = Some c_last ->
  LWMA1_ timestamps cumulative_difficulties T N height FORK_HEIGHT
    difficulty_guess
  = Ret (round_digits
           (let avg_D := (c_last -% c_first) / N in
            if avg_D >? 2000000 *% N *% N *% T
            then (avg_D / (200 * L)) *% (N *% (N + 1) *% T *% 99)
            else (avg_D *% N *% (N + 1) *% T *% 99) / (200 * L))).
Proof.
  intros HN HN1 Hlen Hlen' Hboot EL HL E0 EN. unfold LWMA1_.
  assert (EN1 : N +% 1 = N + 1) by (unfold add64; apply u64_small; lia).
  rewrite EN1, Hboot, Hlen, Hlen'.
  rewrite Z.eqb_refl, Z.leb_refl. cbn [andb assert]. rewrite bind_ret.
  rewrite EL, bind_ret.
  rewrite (at_index_some _ N c_last ltac:(lia) EN), bind_ret.
  rewrite (at_index_some _ 0 c_first ltac:(lia) E0), bind_ret.
  unfold div64.
  replace (N =? 0) with false by (symmetry; apply Z.eqb_neq; lia).
  assert (E200 : 200 *% L = 200 * L) by (unfold mul64; apply u64_small; lia).
  rewrite E200.
  replace (200 * L =? 0) with false by (symmetry; apply Z.eqb_neq; lia).
  cbn [mbind result_bind]. cbv zeta.
  match goal with
  | |- context [if ?c then _ else _] => destruct c
  end; reflexivity.
Qed.

(** ** LWMA1Window: the claims *)

(** C5, as stated, fails when [FORK_HEIGHT + N] wraps: with the fork height
    and the height both 2^64 - 1 and [N = 1], the height lies in
    [fork_height, fork_height + N), yet the 64-bit sum is 0, the bootstrap
    test fails and the guess 12345 is not what is returned. *)
Lemma LWMA1_bootstrap_sum_wraps :
  size [10; 11] = size [5; 6] /\ size [10; 11] <= 1 + 1 /\
  2 ^ 64 - 1 <= 2 ^ 64 - 1 < (2 ^ 64 - 1) + 1 /\
  LWMA1_ [10; 11] [5; 6] 1 1 (2 ^ 64 - 1) (2 ^ 64 - 1) 12345 = Ret 0 /\
  LWMA1_ [10; 11] [5; 6] 1 1 (2 ^ 64 - 1) (2 ^ 64 - 1) 12345 <> Ret 12345.
Proof.
  repeat split; try reflexivity; try lia; try discriminate.
Qed.

(** C5, amended. For 64-bit [N] and [FORK_HEIGHT] with [N + 1] and
    [FORK_HEIGHT + N] below 2^64, and series of equal length at most [N + 1]:
    if [FORK_HEIGHT <= height < FORK_HEIGHT + N], [LWMA1_] returns
    [difficulty_guess], whatever the series hold. *)
Theorem LWMA1_bootstrap_returns_guess
    (timestamps cumulative_difficulties : list Z)
    T N height FORK_HEIGHT difficulty_guess :
  is_u64 N -> is_u64 FORK_HEIGHT ->
  N + 1 < 2 ^ 64 -> FORK_HEIGHT + N < 2 ^ 64 ->
  size timestamps = size cumulative_difficulties ->
  size timestamps <= N + 1 ->
  FORK_HEIGHT <= height < FORK_HEIGHT + N ->
  LWMA1_ timestamps cumulative_difficulties T N height FORK_HEIGHT
    difficulty_guess = Ret difficulty_guess.
Proof.
  unfold is_u64. intros HN HF HN1 HFN Hlen Hsz Hh.
  unfold LWMA1_, in_bootstrap, add64.
  rewrite !u64_small by lia.
  assert (Ha : (size timestamps =? size cumulative_difficulties)
               && (size timestamps <=? N + 1) = true).
  { apply andb_true_intro. split; [apply Z.eqb_eq | apply Z.leb_le]; lia. }
  rewrite Ha. cbn [assert]. rewrite bind_ret.
  replace (height >=? FORK_HEIGHT) with true
    by (symmetry; rewrite Z.geb_leb; apply Z.leb_le; lia).
  replace (height <? FORK_HEIGHT + N) with true
    by (symmetry; apply Z.ltb_lt; lia).
  reflexivity.
Qed.

Lemma LWMA1_bootstrap_returns_guess_witness :
  LWMA1_ [7; 3] [9; 2] 120 60 1010 1000 5000 = Ret 5000.
Proof.
  apply (LWMA1_bootstrap_returns_guess [7; 3] [9; 2] 120 60 1010 1000 5000).
  - unfold is_u64. lia.
  - unfold is_u64. lia.
  - lia.
  - lia.
  - reflexivity.
  - unfold size. simpl. lia.
  - lia.
Defined.

(** C6, as stated, fails: with [N = 1], [T = 1], timestamps [10; 11] and the
    non-decreasing cumulative work [5; 6], outside the bootstrap window,
    [avg_D] is 1, [L] is 2 and [next_D = 198 / 400 = 0]: 0 is returned. *)
Lemma LWMA1_returns_zero :
  size [10; 11] = 1 + 1 /\ size [5; 6] = 1 + 1 /\ 5 <= 6 /\
  in_bootstrap 0 100 1 = false /\
  lwma_L [10; 11] 1 1 = Ret 2 /\
  LWMA1_ [10; 11] [5; 6] 1 1 0 100 12345 = Ret 0.
Proof.
  repeat split; try reflexivity; lia.
Qed.

(** C6, amended. Under the preconditions of [LWMA1_] and outside the
    bootstrap window, if the average work per block
    [avg_D = (c_last - c_first) / N] is at least 7 and no 64-bit intermediate
    wraps ([2000000*N*N*T] below 2^64; [avg_D*N*(N+1)*T*99] below 2^64 where
    the product is formed first; [avg_D*T] below [2^64 - 5*10^8] where the
    division comes first), the returned difficulty is at least 1. *)
Theorem LWMA1_at_least_one
    (timestamps cumulative_difficulties : list Z)
    T N height FORK_HEIGHT difficulty_guess c_first c_last :
  1 <= T -> 1 <= N ->
  Forall is_u64 timestamps ->
  size timestamps = N + 1 ->
  size cumulative_difficulties = N + 1 ->
  in_bootstrap height FORK_HEIGHT N = false ->
  cumulative_difficulties !! 0%nat = Some c_first ->
  cumulative_difficulties !! Z.to_nat N = Some c_last ->
  is_u64 c_first -> is_u64 c_last -> c_first <= c_last ->
  7 <= (c_last - c_first) / N ->
  2000000 * N * N * T < 2 ^ 64 ->
  ((c_last - c_first) / N <= 2000000 * N * N * T ->
   (c_last - c_first) / N * N * (N + 1) * T * 99 < 2 ^ 64) ->
  (2000000 * N * N * T < (c_last - c_first) / N ->
   (c_last - c_first) / N * T < 2 ^ 64 - 500000000) ->
  exists r,
    LWMA1_ timestamps cumulative_difficulties T N height FORK_HEIGHT
      difficulty_guess = Ret r /\
    1 <= r.
Proof.
  unfold is_u64.
  intros HT HN Hall Hlen Hlen' Hboot E0 EN Hc0 HcN Hmono Havg Hcap Hsmall Hlarge.
  destruct (lwma_caps T N HT HN Hcap) as (HN1 & HK & Hfit & Hfit600 & HP & H600).
  destruct (lwma_L_bounds timestamps T N HT HN Hall Hlen Hfit)
    as (L & EL & HL1 & HL2 & HL3).
  assert (H200 : 0 < 200 * L < 2 ^ 64) by lia.
  rewrite (LWMA1_outside_bootstrap _ _ T N height FORK_HEIGHT difficulty_guess
             L c_first c_last HN HN1 Hlen Hlen' Hboot EL H200 E0 EN).
  eexists. split; [reflexivity|].
  unfold sub64. rewrite (u64_small (c_last - c_first)) by lia.
  pose proof (div_le_self (c_last - c_first) N ltac:(lia) HN) as HD.
  set (D := (c_last - c_first) / N) in *. clearbody D. cbv zeta.
  rewrite (mul64_chain3 N (N + 1) T 99) by lia.
  rewrite (mul64_chain3 2000000 N N T) by lia.
  replace (3 * T * N * (N + 1)) with (3 * T * (N * (N + 1))) in HL3 by ring.
  destruct (Z.gtb_spec D (2000000 * N * N * T)) as [Hbig | Hle].
  - destruct (lwma_divide_first T (N * (N + 1)) L D HT HK HL1 HL3
                ltac:(lia) (Hlarge Hbig)) as (Hlo & Hhi).
    rewrite mul64_exact by lia.
    apply round_digits_lower; assumption.
  - specialize (Hsmall Hle).
    rewrite (mul64_chain4 D N (N + 1) T 99) by lia.
    replace (D * N * (N + 1) * T * 99) with (D * (N * (N + 1)) * T * 99) by ring.
    destruct (lwma_multiply_first T (N * (N + 1)) L D HT HK HL1 HL3
                Havg ltac:(lia)) as (Hlo & Hhi).
    apply round_digits_lower; assumption.
Qed.

Lemma LWMA1_at_least_one_witness :
  exists r,
    LWMA1_ [1000; 1120; 1240; 1360] [0; 1000; 2000; 3000] 120 3 0 100 1
    = Ret r /\ 1 <= r.
Proof.
  apply (LWMA1_at_least_one [1000; 1120; 1240; 1360] [0; 1000; 2000; 3000]
           120 3 0 100 1 0 3000); try reflexivity; try lia.
  - repeat constructor; unfold is_u64; lia.
  - unfold is_u64. lia.
  - unfold is_u64. lia.
  - vm_compute. discriminate.
Defined.

(** C10, as stated, fails when [6*T] wraps: with [T = 2^63] and [N = 2] the
    clamp [6*T] is 0 in 64 bits, every clamped solve time is 0, the floor
    [N*N*T/20] is 0 as well, [L] ends as 0 and the division by [200*L]
    divides by zero. *)
Lemma LWMA1_clamp_wraps :
  1 <= 2 ^ 63 < 2 ^ 64 /\
  size [0; 0; 0] = 2 + 1 /\
  in_bootstrap 0 100 2 = false /\
  clamped_solvetime (2 ^ 63) 0 (0 -% 2 ^ 63) = 0 /\
  lwma_L [0; 0; 0] (2 ^ 63) 2 = Ret 0 /\
  200 * 0 < 2 ^ 64 /\
  LWMA1_ [0; 0; 0] [0; 0; 0] (2 ^ 63) 2 0 100 1 = Abort DivisionByZero.
Proof.
  repeat split; try reflexivity; lia.
Qed.

(** C10, amended. With [T >= 1], [N >= 1], [N + 1] 64-bit timestamps and
    [3*T*N*(N+1)] below 2^64 (so that neither [6*T] nor the accumulation
    wraps), every clamped solve time is at least 1 and, after the loop and
    the floor, [L >= max (N*(N+1)/2) (N*N*T/20) > 0]; outside the bootstrap
    window, with as many cumulative difficulties and [200*L] below 2^64,
    [LWMA1_] then returns a value: it never divides by zero. *)
Theorem LWMA1_L_positive
    (timestamps cumulative_difficulties : list Z)
    T N height FORK_HEIGHT difficulty_guess :
  1 <= T -> 1 <= N ->
  Forall is_u64 timestamps ->
  size timestamps = N + 1 ->
  size cumulative_difficulties = N + 1 ->
  in_bootstrap height FORK_HEIGHT N = false ->
  3 * T * N * (N + 1) < 2 ^ 64 ->
  (forall timestamp_i previous_timestamp,
      is_u64 timestamp_i -> is_u64 previous_timestamp ->
      1 <= clamped_solvetime T timestamp_i previous_timestamp) /\
  exists L,
    lwma_L timestamps T N = Ret L /\
    Z.max (N * (N + 1) / 2) (N * N * T / 20) <= L /\ 0 < L /\
    (200 * L < 2 ^ 64 ->
     exists r,
       LWMA1_ timestamps cumulative_difficulties T N height FORK_HEIGHT
         difficulty_guess = Ret r).
Proof.
  intros HT HN Hall Hlen Hlen' Hboot Hfit.
  assert (H6 : 6 * T < 2 ^ 64) by nia.
  split.
  { intros t p Ht Hp.
    apply (clamped_solvetime_bounds T t p HT H6 Ht Hp). }
  destruct (lwma_L_bounds timestamps T N HT HN Hall Hlen Hfit)
    as (L & EL & HL1 & HL2 & HL3).
  exists L. split; [exact EL|].
  assert (Hhalf : N * (N + 1) / 2 <= L).
  { apply Z.div_le_upper_bound; lia. }
  assert (Hpos : 0 < L) by nia.
  split; [lia|]. split; [exact Hpos|].
  intros H200. unfold LWMA1_.
  assert (EN1 : N +% 1 = N + 1) by (unfold add64; apply u64_small; nia).
  rewrite EN1, Hboot, Hlen, Hlen'.
  rewrite Z.eqb_refl, Z.leb_refl. cbn [andb assert]. rewrite bind_ret.
  rewrite EL, bind_ret.
  destruct (at_index_lookup cumulative_difficulties N ltac:(lia))
    as (cN & EcN & _).
  destruct (at_index_lookup cumulative_difficulties 0 ltac:(lia))
    as (c0 & Ec0 & _).
  rewrite EcN, bind_ret, Ec0, bind_ret.
  unfold div64.
  replace (N =? 0) with false by (symmetry; apply Z.eqb_neq; lia).
  rewrite bind_ret.
  assert (E200 : 200 *% L = 200 * L) by (unfold mul64; apply u64_small; lia).
  rewrite E200.
  replace (200 * L =? 0) with false by (symmetry; apply Z.eqb_neq; lia).
  cbn [mbind result_bind].
  match goal with
  | |- context [if ?c then _ else _] => destruct c
  end; cbn [mbind result_bind mret result_ret]; eexists; reflexivity.
Qed.

Lemma LWMA1_L_positive_witness :
  (forall timestamp_i previous_timestamp,
      is_u64 timestamp_i -> is_u64 previous_timestamp ->
      1 <= clamped_solvetime 120 timestamp_i previous_timestamp) /\
  exists L,
    lwma_L [1000; 1120; 1240; 1360] 120 3 = Ret L /\
    Z.max (3 * (3 + 1) / 2) (3 * 3 * 120 / 20) <= L /\ 0 < L /\
    (200 * L < 2 ^ 64 ->
     exists r,
       LWMA1_ [1000; 1120; 1240; 1360] [0; 1000; 2000; 3000] 120 3 0 100 1
       = Ret r).
Proof.
  apply (LWMA1_L_positive [1000; 1120; 1240; 1360] [0; 1000; 2000; 3000]
           120 3 0 100 1); try lia; try reflexivity.
  repeat constructor; unfold is_u64; lia.
Defined.

(** ** WideMultiply and TargetChecker: further properties *)

(** X2. [cadd] and [cadc] are the carry out of a 64-bit addition, without and
    with an incoming carry; without an incoming carry they agree. *)
Theorem carry_out_of_sum a b :
  is_u64 a -> is_u64 b ->
  (cadd a b = true <-> 2 ^ 64 <= a + b) /\
  (forall c, cadc a b c = true <-> 2 ^ 64 <= a + b + carry_bit c) /\
  cadc a b false = cadd a b.
Proof.
  intros Ha Hb. split; [|split].
  - rewrite (cadd_spec a b Ha Hb). apply Z.leb_le.
  - intros c. rewrite (cadc_spec a b c Ha Hb). apply Z.leb_le.
  - rewrite (cadd_spec a b Ha Hb), (cadc_spec a b false Ha Hb).
    cbn [carry_bit]. rewrite Z.add_0_r. reflexivity.
Qed.

Lemma carry_out_of_sum_witness :
  (cadd (2 ^ 64 - 1) 1 = true <-> 2 ^ 64 <= (2 ^ 64 - 1) + 1) /\
  (forall c, cadc (2 ^ 64 - 1) 1 c = true
             <-> 2 ^ 64 <= (2 ^ 64 - 1) + 1 + carry_bit c) /\
  cadc (2 ^ 64 - 1) 1 false = cadd (2 ^ 64 - 1) 1.
Proof.
  apply (carry_out_of_sum (2 ^ 64 - 1) 1); unfold is_u64; lia.
Defined.

Lemma mul_comm_witness : mul 3 (2 ^ 63) = mul (2 ^ 63) 3.
Proof. apply (mul_comm 3 (2 ^ 63)); unfold is_u64; lia. Defined.

Lemma check_hash_zero_witness : check_hash (replicate 32 x00) 12345 = true.
Proof. apply (check_hash_zero 12345). unfold is_u64. lia. Defined.

(** [check_hash] as a comparison of the product with 2^256. *)
Lemma check_hash_ltb (h : hash) (difficulty : Z) :
  length h = 32%nat -> is_u64 difficulty ->
  check_hash h difficulty = (le_value h * difficulty <? 2 ^ 256).
Proof.
  intros Hlen Hd.
  rewrite (hash_limbs h Hlen). unfold check_hash.
  pose proof (mul_spec _ _ (hash_word_range h 0) Hd) as H0.
  pose proof (mul_spec _ _ (hash_word_range h 1) Hd) as H1.
  pose proof (mul_spec _ _ (hash_word_range h 2) Hd) as H2.
  pose proof (mul_spec _ _ (hash_word_range h 3) Hd) as H3.
  destruct (mul (hash_word h 0) difficulty) as [lo0 hi0].
  destruct (mul (hash_word h 1) difficulty) as [lo1 hi1].
  destruct (mul (hash_word h 2) difficulty) as [lo2 hi2].
  destruct (mul (hash_word h 3) difficulty) as [top hi3].
  cbn [fst snd] in *.
  destruct H0 as (E0 & Bl0 & Bh0), H1 as (E1 & Bl1 & Bh1),
           H2 as (E2 & Bl2 & Bh2), H3 as (E3 & Bl3 & Bh3).
  rewrite (cadd_spec hi0 lo1 Bh0 Bl1).
  rewrite !cadc_spec by assumption.
  unfold is_u64 in *. symmetry.
  destruct (Z.eqb_spec hi3 0) as [Hz | Hnz]; cbn [negb];
    [|apply Z.ltb_ge; lia].
  set (c1 := 2 ^ 64 <=? hi0 + lo1).
  assert (Hc1 : hi0 + lo1 - 2 ^ 64 * carry_bit c1 < 2 ^ 64 /\
                0 <= hi0 + lo1 - 2 ^ 64 * carry_bit c1).
  { subst c1. destruct (Z.leb_spec (2 ^ 64) (hi0 + lo1)); cbn [carry_bit]; lia. }
  assert (Hb1 : 0 <= carry_bit c1 <= 1) by (destruct c1; cbn; lia).
  set (c2 := 2 ^ 64 <=? hi1 + lo2 + carry_bit c1).
  assert (Hc2 : hi1 + lo2 + carry_bit c1 - 2 ^ 64 * carry_bit c2 < 2 ^ 64 /\
                0 <= hi1 + lo2 + carry_bit c1 - 2 ^ 64 * carry_bit c2).
  { subst c2. destruct (Z.leb_spec (2 ^ 64) (hi1 + lo2 + carry_bit c1));
      cbn [carry_bit]; lia. }
  assert (Hb2 : 0 <= carry_bit c2 <= 1) by (destruct c2; cbn; lia).
  clearbody c1 c2.
  destruct (Z.leb_spec (2 ^ 64) (hi2 + top + carry_bit c2)) as [C3 | C3];
    cbn [negb]; [apply Z.ltb_ge | apply Z.ltb_lt]; lia.
Qed.

(** X4. The target form of the check: for a difficulty of at least 1 a hash
    passes exactly when its value is at most [(2^256 - 1) / difficulty]. *)
Theorem check_hash_threshold (h : hash) (difficulty : Z) :
  length h = 32%nat -> is_u64 difficulty -> 1 <= difficulty ->
  check_hash h difficulty = true <->
  le_value h <= (2 ^ 256 - 1) / difficulty.
Proof.
  intros Hlen Hd H1. rewrite (check_hash_ltb h difficulty Hlen Hd).
  rewrite Z.ltb_lt.
  pose proof (le_value_range h) as Hr.
  split; intros H.
  - apply Z.div_le_lower_bound; lia.
  - pose proof (Z.mul_div_le (2 ^ 256 - 1) difficulty ltac:(lia)) as Hq.
    assert (difficulty * le_value h <= difficulty * ((2 ^ 256 - 1) / difficulty)).
    { apply Z.mul_le_mono_nonneg_l; lia. }
    lia.
Qed.

Lemma check_hash_threshold_witness :
  check_hash (replicate 31 x00 ++ [x80]) 2 = true <->
  le_value (replicate 31 x00 ++ [x80]) <= (2 ^ 256 - 1) / 2.
Proof.
  apply (check_hash_threshold (replicate 31 x00 ++ [x80]) 2).
  - reflexivity.
  - unfold is_u64. lia.
  - lia.
Defined.

(** X5. A hash that passes keeps passing when the hash value or the difficulty
    gets smaller. *)
Theorem check_hash_monotone (h h' : hash) (difficulty difficulty' : Z) :
  length h = 32%nat -> length h' = 32%nat ->
  is_u64 difficulty -> is_u64 difficulty' ->
  le_value h' <= le_value h -> difficulty' <= difficulty ->
  check_hash h difficulty = true -> check_hash h' difficulty' = true.
Proof.
  intros Hlen Hlen' Hd Hd' Hh Hdd.
  rewrite (check_hash_ltb h difficulty Hlen Hd).
  rewrite (check_hash_ltb h' difficulty' Hlen' Hd').
  rewrite !Z.ltb_lt. intros Hp.
  pose proof (le_value_range h'). unfold is_u64 in *.
  apply Z.le_lt_trans with (le_value h * difficulty); [|exact Hp].
  apply Z.mul_le_mono_nonneg; lia.
Qed.

Lemma check_hash_monotone_witness :
  check_hash (replicate 31 x00 ++ [x01]) 100 = true.
Proof.
  apply (check_hash_monotone (replicate 31 x00 ++ [x02]) (replicate 31 x00 ++ [x01])
           120 100); try reflexivity; try (unfold is_u64; lia).
  vm_compute. discriminate.
Defined.

(** X6. At difficulty 0 or 1 every hash passes. *)
Theorem check_hash_difficulty_at_most_one (h : hash) (difficulty : Z) :
  length h = 32%nat -> 0 <= difficulty <= 1 ->
  check_hash h difficulty = true.
Proof.
  intros Hlen Hd.
  rewrite (check_hash_ltb h difficulty Hlen) by (unfold is_u64; lia).
  apply Z.ltb_lt.
  pose proof (le_value_range h) as Hr. rewrite Hlen in Hr.
  change (2 ^ (8 * Z.of_nat 32)) with (2 ^ 256) in Hr. nia.
Qed.

Lemma check_hash_difficulty_at_most_one_witness :
  check_hash (replicate 32 xff) 1 = true.
Proof.
  apply (check_hash_difficulty_at_most_one (replicate 32 xff) 1);
    [reflexivity | lia].
Defined.

(** ** ClassicWindow: further properties *)


(** The window phase without truncation: it returns, or an assertion fails. *)
Lemma next_difficulty_window_fits_outcome
    cfg timestamps cumulative_difficulties height :
  size timestamps <= fst (select_profile cfg height) ->
  (exists w,
      next_difficulty_window cfg timestamps cumulative_difficulties height
      = Ret w) \/
  next_difficulty_window cfg timestamps cumulative_difficulties height
  = Abort AssertionFailed.
Proof.
  destruct (select_profile_range cfg height) as (HW & HC).
  unfold next_difficulty_window.
  destruct (select_profile cfg height) as [W C]. cbn [fst snd] in *.
  unfold is_u64 in *. intros Hfits.
  replace (size timestamps >? W) with false
    by (symmetry; rewrite Z.gtb_ltb; apply Z.ltb_ge; lia).
  destruct (Z.eqb_spec (size timestamps) (size cumulative_difficulties))
    as [Hlen | Hne]; [|right; reflexivity].
  cbn [assert]. rewrite bind_ret.
  destruct (Z.leb_spec (size timestamps) 1) as [Hshort | Hlong];
    [left; eexists; reflexivity|].
  destruct (Z.geb_spec W 2) as [HW2 | HW2]; [|right; reflexivity].
  cbn [assert]. rewrite bind_ret.
  replace (size timestamps <=? W) with true by (symmetry; apply Z.leb_le; lia).
  cbn [assert]. rewrite bind_ret. cbv zeta.
  assert (EW2 : W -% 2 = W - 2) by (unfold sub64; apply u64_small; lia).
  rewrite EW2.
  pose proof (u64_range (2 * C)) as Hc2. fold (mul64 2 C) in Hc2.
  set (c2 := 2 *% C) in *. clearbody c2.
  destruct (Z.leb_spec c2 (W - 2)) as [Hcut | Hcut]; [|right; reflexivity].
  cbn [assert]. rewrite bind_ret.
  assert (EWC : W -% c2 = W - c2) by (unfold sub64; apply u64_small; lia).
  rewrite EWC.
  assert (Htail : forall cut_begin cut_end,
    0 <= cut_begin -> cut_begin + 2 <= cut_end -> cut_end <= size timestamps ->
    (exists w,
      (assert ((cut_begin +% 2 <=? cut_end) && (cut_end <=? size timestamps));;
       t_last ← at_index (vsort timestamps) (cut_end -% 1);
       t_first ← at_index (vsort timestamps) cut_begin;
       let time_span := t_last -% t_first in
       let time_span := if time_span =? 0 then 1 else time_span in
       c_last ← at_index cumulative_difficulties (cut_end -% 1);
       c_first ← at_index cumulative_difficulties cut_begin;
       let total_work := c_last -% c_first in
       assert (total_work >? 0);;
       mret (Some (time_span, total_work))) = Ret w) \/
    (assert ((cut_begin +% 2 <=? cut_end) && (cut_end <=? size timestamps));;
     t_last ← at_index (vsort timestamps) (cut_end -% 1);
     t_first ← at_index (vsort timestamps) cut_begin;
     let time_span := t_last -% t_first in
     let time_span := if time_span =? 0 then 1 else time_span in
     c_last ← at_index cumulative_difficulties (cut_end -% 1);
     c_first ← at_index cumulative_difficulties cut_begin;
     let total_work := c_last -% c_first in
     assert (total_work >? 0);;
     mret (Some (time_span, total_work))) = Abort AssertionFailed).
  { intros cb ce Hb Hbe He.
    destruct (window_tail timestamps cumulative_difficulties cb ce
                Hlen Hb Hbe He ltac:(lia)) as (sp & cf & cl & _ & _ & _ & ->).
    destruct (cl -% cf >? 0); [left; eexists; reflexivity | right; reflexivity]. }
  destruct (Z.leb_spec (size timestamps) (W - c2)) as [Hall | Hcutting].
  - apply Htail; lia.
  - set (d := size timestamps - (W - c2)).
    assert (Ed : size timestamps -% (W - c2) = d)
      by (unfold sub64; apply u64_small; lia).
    rewrite Ed.
    assert (Ed1 : d +% 1 = d + 1) by (unfold add64; apply u64_small; lia).
    rewrite Ed1.
    assert (Hhalf : 1 <= (d + 1) / 2 <= d).
    { split; [apply Z.div_le_lower_bound; lia|].
      apply Z.div_le_upper_bound; lia. }
    assert (Ece : (d + 1) / 2 +% (W - c2) = (d + 1) / 2 + (W - c2))
      by (unfold add64; apply u64_small; lia).
    rewrite Ece. apply Htail; lia.
Qed.

(** The window phase in general: it returns, or an assertion fails. *)
Lemma next_difficulty_window_outcome
    cfg timestamps cumulative_difficulties height :
  (exists w,
      next_difficulty_window cfg timestamps cumulative_difficulties height
      = Ret w) \/
  next_difficulty_window cfg timestamps cumulative_difficulties height
  = Abort AssertionFailed.
Proof.
  destruct (Z.le_gt_cases (size timestamps) (fst (select_profile cfg height)))
    as [Hfits | Hlong].
  - apply next_difficulty_window_fits_outcome, Hfits.
  - rewrite next_difficulty_window_truncated by lia.
    apply next_difficulty_window_fits_outcome.
    destruct (select_profile_range cfg height) as (HW & _).
    rewrite size_vresize by (unfold is_u64 in HW; lia). lia.
Qed.

(** X8. For every input and every value of the configuration constants,
    [next_difficulty] either returns a difficulty or stops at a failed
    assertion: it never reads outside a vector and never divides by zero. *)
Theorem next_difficulty_never_out_of_range
    cfg timestamps cumulative_difficulties target_seconds height :
  (exists r,
      next_difficulty cfg timestamps cumulative_difficulties target_seconds
        height = Ret r) \/
  next_difficulty cfg timestamps cumulative_difficulties target_seconds height
  = Abort AssertionFailed.
Proof.
  unfold next_difficulty.
  destruct (next_difficulty_window_outcome cfg timestamps
              cumulative_difficulties height) as [[w ->] | ->];
    [left | right; reflexivity].
  rewrite bind_ret. destruct w as [[sp tw]|]; eexists; reflexivity.
Qed.

(** X9. A history longer than the selected window is cut to its first
    [difficulty_window] samples before anything else: the result is the one
    of that prefix. *)
Theorem next_difficulty_uses_window_prefix
    cfg (timestamps cumulative_difficulties : list Z) target_seconds height :
  size timestamps = size cumulative_difficulties ->
  fst (select_profile cfg height) < size timestamps ->
  next_difficulty cfg timestamps cumulative_difficulties target_seconds height
  = next_difficulty cfg
      (take (Z.to_nat (fst (select_profile cfg height))) timestamps)
      (take (Z.to_nat (fst (select_profile cfg height))) cumulative_difficulties)
      target_seconds height.
Proof.
  intros Hlen Hlong.
  destruct (select_profile_range cfg height) as (HW & _). unfold is_u64 in HW.
  unfold next_difficulty.
  rewrite next_difficulty_window_truncated by exact Hlong.
  unfold vresize, size in *.
  rewrite !resize_le by lia. reflexivity.
Qed.

Lemma next_difficulty_uses_window_prefix_witness :
  next_difficulty sample_config (seqZ 1 61) (seqZ 1000 61) 10 1000
  = next_difficulty sample_config
      (take (Z.to_nat (fst (select_profile sample_config 1000))) (seqZ 1 61))
      (take (Z.to_nat (fst (select_profile sample_config 1000))) (seqZ 1000 61))
      10 1000.
Proof.
  apply (next_difficulty_uses_window_prefix sample_config
           (seqZ 1 61) (seqZ 1000 61) 10 1000).
  - reflexivity.
  - vm_compute. reflexivity.
Defined.

(** X10. With series of equal length and at most one sample (the empty series
    included) the result is the bootstrap difficulty 1, whatever the window
    constants, the target and the height. *)
Theorem next_difficulty_short_series
    cfg (timestamps cumulative_difficulties : list Z) target_seconds height :
  size timestamps = size cumulative_difficulties ->
  size timestamps <= 1 ->
  next_difficulty cfg timestamps cumulative_difficulties target_seconds height
  = Ret 1.
Proof.
  intros Hlen Hshort.
  destruct (select_profile_range cfg height) as (HW & _). unfold is_u64 in HW.
  unfold next_difficulty, next_difficulty_window.
  destruct (select_profile cfg height) as [W C]. cbn [fst] in HW.
  destruct (Z.gtb_spec (size timestamps) W) as [Hcut | Hfit].
  - rewrite !size_vresize by lia. rewrite Z.eqb_refl.
    replace (W <=? 1) with true by (symmetry; apply Z.leb_le; lia).
    reflexivity.
  - rewrite <- Hlen, Z.eqb_refl.
    replace (size timestamps <=? 1) with true by (symmetry; apply Z.leb_le; lia).
    reflexivity.
Qed.

Lemma next_difficulty_short_series_witness :
  next_difficulty sample_config [] [] 120 5 = Ret 1.
Proof.
  apply (next_difficulty_short_series sample_config [] [] 120 5);
    [reflexivity | unfold size; simpl; lia].
Defined.

Lemma next_difficulty_scale_nonneg total_work target_seconds time_span :
  is_u64 total_work -> is_u64 target_seconds -> 1 <= time_span < 2 ^ 64 ->
  0 <= next_difficulty_scale total_work target_seconds time_span.
Proof.
  intros Hw Ht Hs. unfold is_u64 in *.
  destruct (next_difficulty_scale_spec total_work target_seconds time_span
              Hw Ht Hs) as [(_ & ->) | (_ & ->)]; [|lia].
  apply Z.div_pos; nia.
Qed.

(** X11. With the total work and the target fixed, a longer time span never
    gives a higher difficulty (the overflow value 0 included). *)
Theorem next_difficulty_scale_antitone
    total_work target_seconds time_span1 time_span2 :
  is_u64 total_work -> is_u64 target_seconds ->
  1 <= time_span1 -> time_span1 <= time_span2 -> time_span2 < 2 ^ 64 ->
  next_difficulty_scale total_work target_seconds time_span2
  <= next_difficulty_scale total_work target_seconds time_span1.
Proof.
  intros Hw Ht H1 H12 H2.
  pose proof (next_difficulty_scale_nonneg total_work target_seconds
                time_span1 Hw Ht ltac:(lia)) as Hpos.
  destruct (next_difficulty_scale_spec total_work target_seconds time_span2
              Hw Ht ltac:(lia)) as [(Hfit2 & E2) | (_ & E2)];
    [|rewrite E2; exact Hpos].
  destruct (next_difficulty_scale_spec total_work target_seconds time_span1
              Hw Ht ltac:(lia)) as [(Hfit1 & E1) | (Hover & _)]; [|lia].
  rewrite E1, E2. unfold is_u64 in *.
  assert (Hp : 0 <= total_work * target_seconds) by nia.
  set (p := total_work * target_seconds) in *. clearbody p.
  pose proof (ceiling_div_spec p time_span1 Hp H1) as C1.
  pose proof (ceiling_div_spec p time_span2 Hp ltac:(lia)) as C2.
  assert (0 <= (p + time_span1 - 1) / time_span1) by (apply Z.div_pos; lia).
  set (r1 := (p + time_span1 - 1) / time_span1) in *.
  set (r2 := (p + time_span2 - 1) / time_span2) in *.
  clearbody r1 r2.
  destruct (Z.le_gt_cases r2 r1) as [Hle | Hgt]; [exact Hle|].
  exfalso.
  assert (r1 * time_span1 <= (r2 - 1) * time_span2).
  { apply Z.mul_le_mono_nonneg; lia. }
  lia.
Qed.

Lemma next_difficulty_scale_antitone_witness :
  next_difficulty_scale 30 10 60 <= next_difficulty_scale 30 10 30.
Proof.
  apply (next_difficulty_scale_antitone 30 10 30 60);
    unfold is_u64; lia.
Defined.

(** X12. On-target history: when the cut window spans [k * target_seconds]
    and holds a total work of [k * D], and the scaled product does not
    overflow, the next difficulty is [D] again. *)
Theorem next_difficulty_on_target
    cfg timestamps cumulative_difficulties target_seconds height k D :
  1 <= k -> 1 <= target_seconds -> 0 <= D ->
  D * k * target_seconds + target_seconds * k - 1 < 2 ^ 64 ->
  next_difficulty_window cfg timestamps cumulative_difficulties height
  = Ret (Some (target_seconds * k, D * k)) ->
  next_difficulty cfg timestamps cumulative_difficulties target_seconds height
  = Ret D.
Proof.
  intros Hk Ht HD Hfit Hw.
  unfold next_difficulty. rewrite Hw, bind_ret. cbn [mret result_ret]. f_equal.
  assert (Hkt : 1 <= target_seconds * k) by nia.
  assert (HDk : 0 <= D * k) by nia.
  assert (HDkt : D * k <= D * k * target_seconds) by nia.
  assert (Htk : target_seconds <= target_seconds * k) by nia.
  destruct (next_difficulty_window_some _ _ _ _ _ _ Hw) as (Hspan & _).
  assert (H1 : is_u64 (D * k)) by (unfold is_u64; lia).
  assert (H2 : is_u64 target_seconds) by (unfold is_u64; lia).
  destruct (next_difficulty_scale_spec (D * k) target_seconds
              (target_seconds * k) H1 H2 ltac:(lia))
    as [(_ & ->) | (Hover & _)]; [|lia].
  replace (D * k * target_seconds + target_seconds * k - 1)
    with (D * (target_seconds * k) + (target_seconds * k - 1)) by ring.
  rewrite Z.div_add_l by lia.
  rewrite Z.div_small by lia. lia.
Qed.

Lemma next_difficulty_on_target_witness :
  next_difficulty sample_config [100; 110; 120] [0; 50; 100] 10 0 = Ret 50.
Proof.
  apply (next_difficulty_on_target sample_config [100; 110; 120]
           [0; 50; 100] 10 0 2 50); try lia. reflexivity.
Defined.

(** ** ClassicWindow: offsets *)

Lemma size_fmap (f : Z -> Z) (v : list Z) : size (f <$> v) = size v.
Proof. unfold size. rewrite length_fmap. reflexivity. Qed.

Lemma at_index_fmap (f : Z -> Z) (v : list Z) (i : Z) :
  at_index (f <$> v) i = f <$> at_index v i.
Proof.
  unfold at_index. destruct (i <? 0); [reflexivity|].
  rewrite list_lookup_fmap. destruct (v !! Z.to_nat i); reflexivity.
Qed.

Lemma vresize_fmap (f : Z -> Z) (n : Z) (v : list Z) :
  n <= size v -> vresize n (f <$> v) = f <$> vresize n v.
Proof.
  unfold vresize, size. intros Hn.
  rewrite !resize_le by (rewrite ?length_fmap; lia).
  symmetry. apply fmap_take.
Qed.

Lemma sub64_offset a b c : (a +% c) -% (b +% c) = a -% b.
Proof.
  unfold add64, sub64, u64.
  rewrite <- Zminus_mod. f_equal. ring.
Qed.

Lemma vsort_offset (c : Z) (v : list Z) :
  vsort ((fun t => t + c) <$> v) = (fun t => t + c) <$> vsort v.
Proof.
  unfold vsort.
  apply (Sorted_unique Z.le); try apply _.
  - apply Sorted_merge_sort. apply _.
  - apply (Sorted_fmap _ Z.le Z.le); [intros x y Hxy; lia|].
    apply Sorted_merge_sort. apply _.
  - rewrite !merge_sort_Permutation. reflexivity.
Qed.

(** Walks the window phase on two inputs that differ by an offset. *)
Ltac run_offset fact :=
  unfold assert;
  repeat (cbn [mbind result_bind mret result_ret fmap result_fmap fst];
          rewrite ?at_index_fmap, ?fact;
          match goal with
          | |- ?x = ?x => reflexivity
          | |- context [at_index ?v ?i] =>
              destruct (at_index v i) eqn:?; try reflexivity
          | |- context [if ?c then _ else _] =>
              destruct c eqn:?; try reflexivity
          end).

(** X13. [next_difficulty] reads the cumulative difficulties only through
    the difference of two entries: adding one constant (modulo 2^64) to every
    entry changes nothing. *)
Theorem next_difficulty_work_offset
    cfg (timestamps cumulative_difficulties : list Z) target_seconds height c :
  size timestamps = size cumulative_difficulties ->
  next_difficulty cfg timestamps
    ((fun x => x +% c) <$> cumulative_difficulties) target_seconds height
  = next_difficulty cfg timestamps cumulative_difficulties target_seconds
      height.
Proof.
  intros Hlen.
  destruct (select_profile_range cfg height) as (HW & _). unfold is_u64 in HW.
  unfold next_difficulty, next_difficulty_window.
  destruct (select_profile cfg height) as [W C]. cbn [fst] in HW.
  destruct (Z.gtb_spec (size timestamps) W) as [Hcut | Hfit].
  - rewrite vresize_fmap by lia.
    rewrite !size_fmap.
    run_offset sub64_offset.
  - rewrite !size_fmap.
    run_offset sub64_offset.
Qed.

Lemma next_difficulty_work_offset_witness :
  next_difficulty sample_config [100; 110; 130]
    ((fun x => x +% (2 ^ 64 - 5)) <$> [0; 10; 30]) 10 0
  = next_difficulty sample_config [100; 110; 130] [0; 10; 30] 10 0.
Proof.
  apply (next_difficulty_work_offset sample_config [100; 110; 130]
           [0; 10; 30] 10 0 (2 ^ 64 - 5)).
  reflexivity.
Defined.

Lemma sub_offset a b c : (a + c) -% (b + c) = a -% b.
Proof. unfold sub64. f_equal. ring. Qed.

(** X14. [next_difficulty] reads the timestamps only through the difference
    of two sorted entries: adding one constant to every timestamp (the sums
    taken exactly) changes nothing. *)
Theorem next_difficulty_time_offset
    cfg (timestamps cumulative_difficulties : list Z) target_seconds height c :
  next_difficulty cfg ((fun t => t + c) <$> timestamps)
    cumulative_difficulties target_seconds height
  = next_difficulty cfg timestamps cumulative_difficulties target_seconds
      height.
Proof.
  destruct (select_profile_range cfg height) as (HW & _). unfold is_u64 in HW.
  unfold next_difficulty, next_difficulty_window.
  destruct (select_profile cfg height) as [W C]. cbn [fst] in HW.
  rewrite size_fmap.
  destruct (Z.gtb_spec (size timestamps) W) as [Hcut | Hfit].
  - rewrite vresize_fmap by lia.
    rewrite !size_fmap, vsort_offset.
    run_offset sub_offset.
  - rewrite !size_fmap, vsort_offset.
    run_offset sub_offset.
Qed.

(** ** The statistics variant: what is recorded *)

(** The statistics variant as the window phase of [next_difficulty] followed
    by the scaling, with the recorder called on the last path only. *)
Lemma with_statistics_run
    cfg (recorder : Type)
    (insert_next_difficulty : recorder -> Z -> Z -> Z -> Z -> recorder)
    st blockheight timestamps cumulative_difficulties target_seconds h0 :
  static_asserts cfg ->
  h0 < to_size_t (DIFFICULTY_ADJUST_HEIGHT cfg) ->
  next_difficulty_with_statistics cfg recorder insert_next_difficulty
    st blockheight timestamps cumulative_difficulties target_seconds
  = (w ← next_difficulty_window cfg timestamps cumulative_difficulties h0;
     match w with
     | None => mret (1, st)
     | Some (time_span, total_work) =>
         let '(low, high) := mul total_work target_seconds in
         if negb (high =? 0) || (low +% time_span -% 1 <? low)
         then mret (0, st)
         else mret ((low +% time_span -% 1) / time_span,
                    insert_next_difficulty st blockheight time_span total_work
                      ((low +% time_span -% 1) / time_span))
     end).
Proof.
  intros Hsa Hh.
  destruct (static_asserts_sizes cfg Hsa) as (Ew & Ec & E2c & Ew2 & Ewc).
  unfold next_difficulty_window, next_difficulty_with_statistics,
    select_profile.
  replace (h0 >=? to_size_t (DIFFICULTY_ADJUST_HEIGHT cfg)) with false
    by (symmetry; rewrite Z.geb_leb; apply Z.leb_gt; lia).
  rewrite Ew, Ec, E2c, Ew2, Ewc.
  replace (DIFFICULTY_WINDOW cfg >=? 2) with true
    by (symmetry; rewrite Z.geb_leb; apply Z.leb_le;
        unfold static_asserts in Hsa; lia).
  replace (2 * DIFFICULTY_CUT cfg <=? DIFFICULTY_WINDOW cfg - 2) with true
    by (symmetry; apply Z.leb_le; unfold static_asserts in Hsa; lia).
  unfold assert. run_both.
Qed.

(** X15. What the statistics variant hands to the recorder: on a series of
    at most one sample (result 1) and on overflow (result 0) the recorder is
    not called; otherwise it is called once, with the block height, the time
    span and total work of the cut window, and the difficulty that is
    returned. *)
Theorem with_statistics_recorded_row
    cfg (recorder : Type)
    (insert_next_difficulty : recorder -> Z -> Z -> Z -> Z -> recorder)
    st blockheight timestamps cumulative_difficulties target_seconds h0 d st' :
  static_asserts cfg ->
  h0 < to_size_t (DIFFICULTY_ADJUST_HEIGHT cfg) ->
  is_u64 target_seconds ->
  next_difficulty_with_statistics cfg recorder insert_next_difficulty
    st blockheight timestamps cumulative_difficulties target_seconds
  = Ret (d, st') ->
  (next_difficulty_window cfg timestamps cumulative_difficulties h0 = Ret None
   /\ d = 1 /\ st' = st) \/
  (exists time_span total_work,
      next_difficulty_window cfg timestamps cumulative_difficulties h0
      = Ret (Some (time_span, total_work)) /\
      ((2 ^ 64 <= total_work * target_seconds + time_span - 1 /\
        d = 0 /\ st' = st) \/
       (total_work * target_seconds + time_span - 1 < 2 ^ 64 /\
        d = (total_work * target_seconds + time_span - 1) / time_span /\
        st' = insert_next_difficulty st blockheight time_span total_work d))).
Proof.
  intros Hsa Hh Ht Hrun.
  rewrite (with_statistics_run cfg recorder insert_next_difficulty st
             blockheight timestamps cumulative_difficulties target_seconds h0
             Hsa Hh) in Hrun.
  apply bind_ret_inv in Hrun. destruct Hrun as (w & Hw & Hrun).
  destruct w as [[time_span total_work]|].
  - right. exists time_span, total_work. split; [exact Hw|].
    destruct (next_difficulty_window_some _ _ _ _ _ _ Hw) as (Hs & Hk).
    assert (Hwk : is_u64 total_work) by (unfold is_u64; lia).
    pose proof (mul_spec total_work target_seconds Hwk Ht) as (Hp & Hl & Hh').
    destruct (mul total_work target_seconds) as [low high].
    cbn [fst snd] in *. unfold is_u64 in *.
    destruct (Z.eqb_spec high 0) as [Hz | Hnz]; cbn [negb orb] in Hrun.
    + destruct (ceiling_sum_cases low time_span ltac:(unfold is_u64; lia) Hs)
        as [(Hlt & E & Hc) | (Hge & Hc)]; rewrite Hc in Hrun;
        injection Hrun as <- <-.
      * right. rewrite E.
        replace (total_work * target_seconds) with low by lia.
        repeat split; try reflexivity; lia.
      * left. repeat split; try reflexivity; lia.
    + injection Hrun as <- <-. left. repeat split; try reflexivity. nia.
  - left. injection Hrun as <- <-. repeat split; try reflexivity. exact Hw.
Qed.

Lemma with_statistics_recorded_row_witness :
  (next_difficulty_window sample_config [100; 110; 130] [0; 10; 30] 0 = Ret None
   /\ 10 = 1 /\ [(7, 30, 30, 10)] = []) \/
  (exists time_span total_work,
      next_difficulty_window sample_config [100; 110; 130] [0; 10; 30] 0
      = Ret (Some (time_span, total_work)) /\
      ((2 ^ 64 <= total_work * 10 + time_span - 1 /\
        10 = 0 /\ [(7, 30, 30, 10)] = []) \/
       (total_work * 10 + time_span - 1 < 2 ^ 64 /\
        10 = (total_work * 10 + time_span - 1) / time_span /\
        [(7, 30, 30, 10)]
        = (fun l h t w d => l ++ [(h, t, w, d)]) [] 7 time_span total_work 10))).
Proof.
  apply (with_statistics_recorded_row sample_config (list (Z * Z * Z * Z))
           (fun l h t w d => l ++ [(h, t, w, d)]) [] 7 [100; 110; 130]
           [0; 10; 30] 10 0 10 [(7, 30, 30, 10)]).
  - unfold static_asserts. cbn. lia.
  - vm_compute. reflexivity.
  - unfold is_u64. lia.
  - reflexivity.
Defined.

(** X16. Under its static assertions the statistics variant, like
    [next_difficulty], returns or stops at a failed assertion: no index is out
    of range. *)
Theorem with_statistics_never_out_of_range
    cfg (recorder : Type)
    (insert_next_difficulty : recorder -> Z -> Z -> Z -> Z -> recorder)
    st blockheight timestamps cumulative_difficulties target_seconds :
  static_asserts cfg ->
  (exists r,
      next_difficulty_with_statistics cfg recorder insert_next_difficulty
        st blockheight timestamps cumulative_difficulties target_seconds
      = Ret r) \/
  next_difficulty_with_statistics cfg recorder insert_next_difficulty
    st blockheight timestamps cumulative_difficulties target_seconds
  = Abort AssertionFailed.
Proof.
  intros Hsa.
  rewrite (with_statistics_run cfg recorder insert_next_difficulty st
             blockheight timestamps cumulative_difficulties target_seconds
             (-1) Hsa)
    by (pose proof (u64_range (DIFFICULTY_ADJUST_HEIGHT cfg));
        unfold to_size_t; lia).
  destruct (next_difficulty_window_outcome cfg timestamps
              cumulative_difficulties (-1)) as [[w ->] | ->];
    [left | right; reflexivity].
  rewrite bind_ret. destruct w as [[sp tw]|]; [|eexists; reflexivity].
  destruct (mul tw target_seconds) as [low high].
  destruct (negb (high =? 0) || (low +% sp -% 1 <? low));
    eexists; reflexivity.
Qed.

Lemma with_statistics_never_out_of_range_witness :
  (exists r,
      next_difficulty_with_statistics sample_config BlockchainSQLITEDB
        (sqlite_recorder true true true)
        {| m_statistics_open := true; t_next_block_difficulty := [] |}
        7 [100; 110; 130] [0; 10] 10 = Ret r) \/
  next_difficulty_with_statistics sample_config BlockchainSQLITEDB
    (sqlite_recorder true true true)
    {| m_statistics_open := true; t_next_block_difficulty := [] |}
    7 [100; 110; 130] [0; 10] 10 = Abort AssertionFailed.
Proof.
  apply (with_statistics_never_out_of_range sample_config BlockchainSQLITEDB
           (sqlite_recorder true true true)
           {| m_statistics_open := true; t_next_block_difficulty := [] |}
           7 [100; 110; 130] [0; 10] 10).
  unfold static_asserts. cbn. lia.
Defined.

(** ** LWMA1Window: further properties of the digit rounding *)

(** Rounding at a scale, when the addition does not wrap: the exact
    quotient and the distance to the input. *)
Lemma round_at_exact s y :
  2 <= s -> 0 <= y -> y + s / 2 < 2 ^ 64 ->
  round_at s y = (y + s / 2) / s * s /\
  y - s / 2 <= round_at s y + (s - 2 * (s / 2)) /\
  round_at s y <= y + s / 2.
Proof.
  intros Hs Hy Hb. unfold round_at, add64, mul64.
  assert (Hhalf : 0 <= s / 2 < s)
    by (split; [apply Z.div_pos | apply Z.div_lt]; lia).
  rewrite (u64_small (y + s / 2)) by lia.
  pose proof (Z.mul_div_le (y + s / 2) s ltac:(lia)) as Hle.
  pose proof (Z.div_pos (y + s / 2) s ltac:(lia) ltac:(lia)) as Hq.
  pose proof (Z.div_mod (y + s / 2) s ltac:(lia)) as Hdm.
  pose proof (Z.mod_pos_bound (y + s / 2) s ltac:(lia)) as Hm.
  pose proof (Z.div_mod s 2 ltac:(lia)) as Hs2.
  pose proof (Z.mod_pos_bound s 2 ltac:(lia)) as Hm2.
  rewrite u64_small by nia.
  repeat split; nia.
Qed.

Lemma p10_even k : (1 <= k)%nat -> 2 * (p10 k / 2) = p10 k.
Proof.
  intros Hk. destruct k as [|k]; [lia|]. rewrite p10_S.
  replace (10 * p10 k) with (5 * p10 k * 2) by ring.
  rewrite Z.div_mul by lia. ring.
Qed.

Lemma p10_ge_10 k : (1 <= k)%nat -> 10 <= p10 k.
Proof.
  intros Hk. destruct k as [|k]; [lia|]. rewrite p10_S.
  pose proof (p10_pos k). lia.
Qed.

(** X17. The rounding moves a value by at most half a percent: for every
    value whose rounding addition cannot wrap, 200 times the distance between
    the result and the input is at most the input. *)
Theorem round_digits_within_half_percent y :
  0 <= y -> y + 500000000 < 2 ^ 64 ->
  200 * Z.abs (round_digits y - y) <= y.
Proof.
  intros Hy Hb. unfold round_digits. change 1000000000 with (p10 9).
  destruct (round_loop_shape 10 9 y ltac:(lia) ltac:(lia))
    as [[-> _] | (j & Hj & Hq & _ & ->)].
  - rewrite Z.sub_diag. cbn. lia.
  - pose proof (p10_ge_10 j ltac:(lia)) as Hs.
    pose proof (p10_le_9 j ltac:(lia)) as Hs9.
    pose proof (p10_even j ltac:(lia)) as He.
    assert (Hhalf : p10 j / 2 <= 500000000) by lia.
    destruct (round_at_exact (p10 j) y ltac:(lia) Hy ltac:(lia))
      as (_ & Hlo & Hhi).
    lia.
Qed.

Lemma round_digits_within_half_percent_witness :
  200 * Z.abs (round_digits 123456789 - 123456789) <= 123456789.
Proof.
  apply (round_digits_within_half_percent 123456789); lia.
Defined.

(** X18. The top of the range: for the last 5*10^8 values below 2^64 the
    rounding addition wraps and the rounding returns 0. *)
Theorem round_digits_wraps_to_zero y :
  2 ^ 64 - 500000000 <= y -> y < 2 ^ 64 -> round_digits y = 0.
Proof.
  intros Hlo Hhi. unfold round_digits. change 1000000000 with (p10 9).
  rewrite (round_loop_scale 9 8 y) by lia.
  change (p10 9) with 1000000000.
  replace (y >? 100 * 1000000000) with true by (symmetry; apply Z.gtb_lt; lia).
  unfold round_at, add64, mul64.
  change (1000000000 / 2) with 500000000.
  rewrite (u64_wrap_once (y + 500000000)) by lia.
  rewrite Z.div_small by lia. reflexivity.
Qed.

Lemma round_digits_wraps_to_zero_witness : round_digits (2 ^ 64 - 1) = 0.
Proof. apply (round_digits_wraps_to_zero (2 ^ 64 - 1)); lia. Defined.

(** X19. Values up to 1000 are returned as they are; a larger value (whose
    rounding addition cannot wrap) becomes [q * 10^j] with [1 <= j <= 9] and
    [100 <= q], and [q <= 1000] below the largest scale: at most four
    significant digits are kept. *)
Theorem round_digits_significant_digits y :
  0 <= y -> y + 500000000 < 2 ^ 64 ->
  (y <= 1000 -> round_digits y = y) /\
  (1000 < y ->
   exists j q, (1 <= j <= 9)%nat /\ round_digits y = q * p10 j /\
               100 <= q /\ ((j < 9)%nat -> q <= 1000)).
Proof.
  intros Hy Hb. unfold round_digits. change 1000000000 with (p10 9).
  destruct (round_loop_shape 10 9 y ltac:(lia) ltac:(lia))
    as [[E Hall] | (j & Hj & Hq & Hab & E)]; rewrite E.
  - split; [reflexivity|]. intros Hbig. exfalso.
    specialize (Hall 1%nat ltac:(lia)). change (p10 1) with 10 in Hall. lia.
  - pose proof (p10_ge_10 j ltac:(lia)) as Hs.
    pose proof (p10_le_9 j ltac:(lia)) as Hs9.
    assert (Hhalf : 0 <= p10 j / 2 <= 500000000).
    { split; [apply Z.div_pos; lia | apply Z.div_le_upper_bound; lia]. }
    split; [intros Hsmall; exfalso; lia|]. intros _.
    destruct (round_at_exact (p10 j) y ltac:(lia) Hy ltac:(lia))
      as (Eq & _ & _).
    exists j, ((y + p10 j / 2) / p10 j). repeat split; try lia; try exact Eq.
    + apply Z.div_le_lower_bound; lia.
    + intros Hj9.
      assert (Hnext : y <= 100 * p10 (S j)) by (apply Hab; lia).
      rewrite p10_S in Hnext.
      assert (p10 j / 2 < p10 j) by (apply Z.div_lt; lia).
      apply Z.lt_succ_r. apply Z.div_lt_upper_bound; lia.
Qed.

Lemma round_digits_significant_digits_witness :
  (123456789 <= 1000 -> round_digits 123456789 = 123456789) /\
  (1000 < 123456789 ->
   exists j q, (1 <= j <= 9)%nat /\ round_digits 123456789 = q * p10 j /\
               100 <= q /\ ((j < 9)%nat -> q <= 1000)).
Proof.
  apply (round_digits_significant_digits 123456789); lia.
Defined.

(** X20. The rounding is monotone: among values whose rounding addition
    cannot wrap, a larger input never gives a smaller result. *)
Theorem round_digits_monotone x y :
  0 <= x -> x <= y -> y + 500000000 < 2 ^ 64 ->
  round_digits x <= round_digits y.
Proof.
  intros Hx Hxy Hb. unfold round_digits. change 1000000000 with (p10 9).
  destruct (round_loop_shape 10 9 y ltac:(lia) ltac:(lia))
    as [[Ey Hally] | (jy & Hjy & Hqy & Haby & Ey)]; rewrite Ey;
  destruct (round_loop_shape 10 9 x ltac:(lia) ltac:(lia))
    as [[Ex Hallx] | (jx & Hjx & Hqx & Habx & Ex)]; rewrite Ex.
  - exact Hxy.
  - exfalso. specialize (Hally jx ltac:(lia)). lia.
  - pose proof (p10_ge_10 jy ltac:(lia)) as Hs.
    pose proof (p10_le_9 jy ltac:(lia)) as Hs9.
    assert (Hhalf : 0 <= p10 jy / 2 <= 500000000).
    { split; [apply Z.div_pos; lia | apply Z.div_le_upper_bound; lia]. }
    destruct (round_at_exact (p10 jy) y ltac:(lia) ltac:(lia) ltac:(lia))
      as (Eq & _ & _).
    assert (100 <= (y + p10 jy / 2) / p10 jy)
      by (apply Z.div_le_lower_bound; lia).
    specialize (Hallx 1%nat ltac:(lia)). change (p10 1) with 10 in Hallx.
    nia.
  - pose proof (p10_ge_10 jy ltac:(lia)) as Hsy.
    pose proof (p10_le_9 jy ltac:(lia)) as Hsy9.
    pose proof (p10_ge_10 jx ltac:(lia)) as Hsx.
    pose proof (p10_le_9 jx ltac:(lia)) as Hsx9.
    assert (Hhy : 0 <= p10 jy / 2 <= 500000000).
    { split; [apply Z.div_pos; lia | apply Z.div_le_upper_bound; lia]. }
    assert (Hhx : 0 <= p10 jx / 2 <= 500000000).
    { split; [apply Z.div_pos; lia | apply Z.div_le_upper_bound; lia]. }
    destruct (round_at_exact (p10 jy) y ltac:(lia) ltac:(lia) ltac:(lia))
      as (Eqy & _ & _).
    destruct (round_at_exact (p10 jx) x ltac:(lia) ltac:(lia) ltac:(lia))
      as (Eqx & _ & _).
    destruct (lt_eq_lt_dec jx jy) as [[Hlt | Heq] | Hgt].
    + (* x rounds at a smaller scale: it stays below 100 * 10^jy *)
      assert (Hxj : x <= 100 * p10 jy) by (apply Habx; lia).
      destruct (p10_divide jy jx ltac:(lia)) as [m Hm].
      assert (round_at (p10 jx) x <= (100 * m) * p10 jx).
      { apply round_at_below; lia. }
      assert (100 <= (y + p10 jy / 2) / p10 jy)
        by (apply Z.div_le_lower_bound; lia).
      nia.
    + subst jx. rewrite Eqx, Eqy.
      apply Z.mul_le_mono_nonneg_r; [lia|].
      apply Z.div_le_mono; lia.
    + exfalso. assert (y <= 100 * p10 jx) by (apply Haby; lia). lia.
Qed.

Lemma round_digits_monotone_witness :
  round_digits 99999 <= round_digits 100001.
Proof. apply (round_digits_monotone 99999 100001); lia. Defined.

(** X21. The loop of lines 273-277 is the rounding at the first scale, from
    10^9 down to 10, that the value exceeds a hundredfold; ten tests of
    [i > 1] always suffice, so running the loop longer changes nothing. *)
Theorem round_digits_first_scale n x :
  round_loop (10 + n) 1000000000 x = rounding_step_spec x.
Proof.
  transitivity (round_digits x).
  - apply round_digits_any_fuel.
  - apply round_digits_is_spec.
Qed.

(** ** LWMA1Window: further properties *)

(** X22. The clamp bounds the weighted sum: with [3*T*N*(N+1)] below 2^64,
    [LWMA1_]'s [L] after the loop and the floor is at most [3*T*N*(N+1)],
    that is [6*T] times the sum of the weights [1..N]. *)
Theorem lwma_L_at_most_clamp (timestamps : list Z) (T N : Z) :
  1 <= T -> 1 <= N ->
  Forall is_u64 timestamps ->
  size timestamps = N + 1 ->
  3 * T * N * (N + 1) < 2 ^ 64 ->
  exists L, lwma_L timestamps T N = Ret L /\ L <= 3 * T * N * (N + 1).
Proof.
  intros HT HN Hall Hlen Hfit.
  destruct (lwma_L_bounds timestamps T N HT HN Hall Hlen Hfit)
    as (L & EL & _ & _ & Hup).
  exists L. split; [exact EL | exact Hup].
Qed.

Lemma lwma_L_at_most_clamp_witness :
  exists L, lwma_L [1000; 1120; 9999; 10000] 120 3 = Ret L /\
            L <= 3 * 120 * 3 * (3 + 1).
Proof.
  apply (lwma_L_at_most_clamp [1000; 1120; 9999; 10000] 120 3); try lia.
  - repeat constructor; unfold is_u64; lia.
  - reflexivity.
Defined.

(** The scaled average where the product is formed first, between its two
    bounds. *)
Lemma lwma_multiply_first_bounds T K L D :
  1 <= T -> 2 <= K -> K <= 2 * L -> L <= 3 * T * K -> 0 <= D ->
  D * 99 / 600 <= D * K * T * 99 / (200 * L) <= D * T * 99 / 100.
Proof.
  intros HT HK HKL HL HD.
  assert (HKT : 1 <= T * K) by nia.
  assert (HM : 0 <= D * K * T * 99) by nia.
  split.
  - replace (D * 99 / 600) with (D * K * T * 99 / (600 * (T * K))).
    + apply Z.div_le_compat_l; [exact HM|]. nia.
    + replace (D * K * T * 99) with (D * 99 * (T * K)) by ring.
      apply Z.div_mul_cancel_r; lia.
  - replace (D * T * 99 / 100) with (D * K * T * 99 / (100 * K)).
    + apply Z.div_le_compat_l; [exact HM|]. lia.
    + replace (D * K * T * 99) with (D * T * 99 * K) by ring.
      apply Z.div_mul_cancel_r; lia.
Qed.

(** X23. The response of [LWMA1_] is bounded: outside the bootstrap window,
    where the product is formed first and nothing wraps, the value that is
    rounded lies between [avg_D * 99 / 600] and [avg_D * T * 99 / 100]. *)
Theorem LWMA1_response_bounds
    (timestamps cumulative_difficulties : list Z)
    T N height FORK_HEIGHT difficulty_guess c_first c_last :
  1 <= T -> 1 <= N ->
  Forall is_u64 timestamps ->
  size timestamps = N + 1 ->
  size cumulative_difficulties = N + 1 ->
  in_bootstrap height FORK_HEIGHT N = false ->
  cumulative_difficulties !! 0%nat = Some c_first ->
  cumulative_difficulties !! Z.to_nat N = Some c_last ->
  is_u64 c_first -> is_u64 c_last -> c_first <= c_last ->
  2000000 * N * N * T < 2 ^ 64 ->
  (c_last - c_first) / N <= 2000000 * N * N * T ->
  (c_last - c_first) / N * N * (N + 1) * T * 99 < 2 ^ 64 ->
  exists next_D,
    LWMA1_ timestamps cumulative_difficulties T N height FORK_HEIGHT
      difficulty_guess = Ret (round_digits next_D) /\
    (c_last - c_first) / N * 99 / 600 <= next_D /\
    next_D <= (c_last - c_first) / N * T * 99 / 100.
Proof.
  unfold is_u64.
  intros HT HN Hall Hlen Hlen' Hboot E0 EN Hc0 HcN Hmono Hcap Hle Hfitp.
  destruct (lwma_caps T N HT HN Hcap) as (HN1 & HK & Hfit & Hfit600 & HP & H600).
  destruct (lwma_L_bounds timestamps T N HT HN Hall Hlen Hfit)
    as (L & EL & HL1 & HL2 & HL3).
  assert (H200 : 0 < 200 * L < 2 ^ 64) by lia.
  rewrite (LWMA1_outside_bootstrap _ _ T N height FORK_HEIGHT difficulty_guess
             L c_first c_last HN HN1 Hlen Hlen' Hboot EL H200 E0 EN).
  eexists. split; [reflexivity|].
  unfold sub64. rewrite (u64_small (c_last - c_first)) by lia.
  pose proof (div_le_self (c_last - c_first) N ltac:(lia) HN) as HD.
  set (D := (c_last - c_first) / N) in *. clearbody D. cbv zeta.
  rewrite (mul64_chain3 2000000 N N T) by lia.
  replace (D >? 2000000 * N * N * T) with false
    by (symmetry; rewrite Z.gtb_ltb; apply Z.ltb_ge; lia).
  rewrite (mul64_chain4 D N (N + 1) T 99) by lia.
  replace (D * N * (N + 1) * T * 99) with (D * (N * (N + 1)) * T * 99) by ring.
  replace (3 * T * N * (N + 1)) with (3 * T * (N * (N + 1))) in HL3 by ring.
  apply (lwma_multiply_first_bounds T (N * (N + 1)) L D); lia.
Qed.

Lemma LWMA1_response_bounds_witness :
  exists next_D,
    LWMA1_ [1000; 1120; 1240; 1360] [0; 1000; 2000; 3000] 120 3 0 100 1
    = Ret (round_digits next_D) /\
    (3000 - 0) / 3 * 99 / 600 <= next_D /\
    next_D <= (3000 - 0) / 3 * 120 * 99 / 100.
Proof.
  apply (LWMA1_response_bounds [1000; 1120; 1240; 1360] [0; 1000; 2000; 3000]
           120 3 0 100 1 0 3000); try reflexivity; try lia.
  - repeat constructor; unfold is_u64; lia.
  - unfold is_u64. lia.
  - unfold is_u64. lia.
  - vm_compute. discriminate.
Defined.

(** X24. A window of [N = 0] is not stopped by the assertions: with one
    sample in each series the average over the window divides by zero. *)
Theorem LWMA1_zero_window_divides_by_zero
    (timestamps cumulative_difficulties : list Z)
    T height FORK_HEIGHT difficulty_guess :
  is_u64 FORK_HEIGHT ->
  size timestamps = 1 -> size cumulative_difficulties = 1 ->
  LWMA1_ timestamps cumulative_difficulties T 0 height FORK_HEIGHT
    difficulty_guess = Abort DivisionByZero.
Proof.
  intros HF Hlen Hlen'. unfold LWMA1_.
  assert (Hb : in_bootstrap height FORK_HEIGHT 0 = false).
  { unfold in_bootstrap, add64. rewrite Z.add_0_r, (u64_small _ HF).
    destruct (Z.geb_spec height FORK_HEIGHT) as [Hge | Hlt]; [|reflexivity].
    cbn [andb]. apply Z.ltb_ge. lia. }
  rewrite Hlen, Hlen', Hb.
  change (assert ((1 =? 1) && (1 <=? 0 +% 1))) with (Ret tt).
  change (assert (1 =? 0 +% 1)) with (Ret tt).
  rewrite !bind_ret. unfold lwma_L.
  destruct (at_index_lookup timestamps 0 ltac:(lia)) as (t0 & -> & _).
  destruct (at_index_lookup cumulative_difficulties 0 ltac:(lia))
    as (c0 & -> & _).
  reflexivity.
Qed.

Lemma LWMA1_zero_window_divides_by_zero_witness :
  LWMA1_ [1000] [50] 120 0 7 5 1 = Abort DivisionByZero.
Proof.
  apply (LWMA1_zero_window_divides_by_zero [1000] [50] 120 7 5 1);
    [unfold is_u64; lia | reflexivity | reflexivity].
Defined.

(** X25. [LWMA1_] reads the cumulative difficulties only through
    [cumulative_difficulties[N] - cumulative_difficulties[0]]: adding one
    constant (modulo 2^64) to every entry changes nothing. *)
Theorem LWMA1_work_offset
    (timestamps cumulative_difficulties : list Z)
    T N height FORK_HEIGHT difficulty_guess c :
  LWMA1_ timestamps ((fun x => x +% c) <$> cumulative_difficulties)
    T N height FORK_HEIGHT difficulty_guess
  = LWMA1_ timestamps cumulative_difficulties T N height FORK_HEIGHT
      difficulty_guess.
Proof.
  unfold LWMA1_. rewrite size_fmap, !at_index_fmap.
  destruct (assert _) as [[]|f]; [|reflexivity]. rewrite !bind_ret.
  destruct (in_bootstrap height FORK_HEIGHT N); [reflexivity|].
  destruct (assert _) as [[]|f]; [|reflexivity]. rewrite !bind_ret.
  destruct (lwma_L timestamps T N) as [L|f]; [|reflexivity].
  rewrite !bind_ret.
  destruct (at_index cumulative_difficulties N) as [cN|f]; [|reflexivity].
  cbn [fmap result_fmap]. rewrite !bind_ret.
  destruct (at_index cumulative_difficulties 0) as [c0|f]; [|reflexivity].
  cbn [fmap result_fmap]. rewrite !bind_ret.
  rewrite sub64_offset. reflexivity.
Qed.

(** ** The statistics variant with the sqlite recorder *)

(** What one call of the sqlite recorder does to the database object. *)
Lemma sqlite_recorder_effect begin_ok prepare_ok step_ok db h t w d :
  m_statistics_open
    (sqlite_recorder begin_ok prepare_ok step_ok db h t w d)
  = m_statistics_open db /\
  (t_next_block_difficulty
     (sqlite_recorder begin_ok prepare_ok step_ok db h t w d)
   = t_next_block_difficulty db \/
   (m_statistics_open db = true /\ begin_ok = true /\ prepare_ok = true /\
    step_ok = true /\
    t_next_block_difficulty
      (sqlite_recorder begin_ok prepare_ok step_ok db h t w d)
    = t_next_block_difficulty db ++ [(h, t, w, d)])).
Proof.
  unfold sqlite_recorder, db_insert_next_difficulty.
  destruct (m_statistics_open db) eqn:Ho, begin_ok, prepare_ok, step_ok;
    cbn [negb snd m_statistics_open t_next_block_difficulty];
    (split; [first [reflexivity | exact Ho]|]);
    try (left; reflexivity).
  right. repeat split; reflexivity.
Qed.

(** X26. With the sqlite recorder, one call of the statistics variant
    leaves [m_statistics_open] as it was and adds at most one row to
    [t_next_block_difficulty]; a row is added only when the statistics are
    open and sqlite accepted the transaction, the statement and the step, and
    it carries the block height and the returned difficulty. *)
Theorem with_statistics_sqlite_rows
    cfg begin_ok prepare_ok step_ok (db db' : BlockchainSQLITEDB)
    blockheight timestamps cumulative_difficulties target_seconds d :
  static_asserts cfg ->
  next_difficulty_with_statistics cfg BlockchainSQLITEDB
    (sqlite_recorder begin_ok prepare_ok step_ok) db blockheight
    timestamps cumulative_difficulties target_seconds
  = Ret (d, db') ->
  m_statistics_open db' = m_statistics_open db /\
  (t_next_block_difficulty db' = t_next_block_difficulty db \/
   (m_statistics_open db = true /\ begin_ok = true /\ prepare_ok = true /\
    step_ok = true /\
    exists time_span total_work,
      t_next_block_difficulty db'
      = t_next_block_difficulty db
        ++ [(blockheight, time_span, total_work, d)])).
Proof.
  intros Hsa Hrun.
  rewrite (with_statistics_run cfg BlockchainSQLITEDB
             (sqlite_recorder begin_ok prepare_ok step_ok) db blockheight
             timestamps cumulative_difficulties target_seconds (-1) Hsa)
    in Hrun
    by (pose proof (u64_range (DIFFICULTY_ADJUST_HEIGHT cfg));
        unfold to_size_t; lia).
  apply bind_ret_inv in Hrun. destruct Hrun as (w & _ & Hrun).
  destruct w as [[time_span total_work]|].
  - destruct (mul total_work target_seconds) as [low high].
    destruct (negb (high =? 0) || (low +% time_span -% 1 <? low));
      injection Hrun as <- <-.
    + split; [reflexivity | left; reflexivity].
    + destruct (sqlite_recorder_effect begin_ok prepare_ok step_ok db
                  blockheight time_span total_work
                  ((low +% time_span -% 1) / time_span))
        as (Hopen & [Hsame | (Ho & Hb & Hp & Hs & Hrow)]).
      * split; [exact Hopen | left; exact Hsame].
      * split; [exact Hopen|]. right. repeat split; try assumption.
        exists time_span, total_work. exact Hrow.
  - injection Hrun as <- <-. split; [reflexivity | left; reflexivity].
Qed.

Lemma with_statistics_sqlite_rows_witness :
  m_statistics_open
    {| m_statistics_open := true;
       t_next_block_difficulty := [(5000, 30, 30, 10)] |}
  = m_statistics_open
      {| m_statistics_open := true; t_next_block_difficulty := [] |} /\
  (t_next_block_difficulty
     {| m_statistics_open := true;
        t_next_block_difficulty := [(5000, 30, 30, 10)] |}
   = t_next_block_difficulty
       {| m_statistics_open := true; t_next_block_difficulty := [] |} \/
   (m_statistics_open
      {| m_statistics_open := true; t_next_block_difficulty := [] |} = true /\
    true = true /\ true = true /\ true = true /\
    exists time_span total_work,
      t_next_block_difficulty
        {| m_statistics_open := true;
           t_next_block_difficulty := [(5000, 30, 30, 10)] |}
      = t_next_block_difficulty
          {| m_statistics_open := true; t_next_block_difficulty := [] |}
        ++ [(5000, time_span, total_work, 10)])).
Proof.
  apply (with_statistics_sqlite_rows sample_config true true true
           {| m_statistics_open := true; t_next_block_difficulty := [] |}
           {| m_statistics_open := true;
              t_next_block_difficulty := [(5000, 30, 30, 10)] |}
           5000 [100; 110; 130] [0; 10; 30] 10 10).
  - unfold static_asserts. cbn. lia.
  - reflexivity.
Defined.
